(** * Scorecard translation of plate-appearance descriptions

    A shallow embedding of [baseball/baseball.py] (and of the older
    [baseball.py], which still carries [fix_initials]): the name normalizer,
    the roster index of [Team], and the methods of [PlateAppearance] that
    turn a description into scorecard notation.

    Conventions.
    - A Python [str] is a [string]; the characters of a description are
      ASCII.  [is_space] is Python's notion of white space on that range
      (codes 9-13, 28-31 and 32), used alike by [str.split()], [str.strip()]
      and the regular-expression class [\s]; [\w] is [[A-Za-z0-9_]].
    - A raised exception is a value of [exn]; a method that may raise
      returns a [result].
    - Regular expressions are kept as syntax ([Re.regex]) and run by a
      backtracking matcher with the order of preference of Python's [re]:
      leftmost start, alternatives left to right, greedy repetition.
    - A [dict] is a [gmap]; the ordered keyword table is an association
      list, scanned in order. *)

From Stdlib Require Import ZArith Ascii String List Lia Bool Arith.
From Stdlib Require Import DecimalString.
From stdpp Require Import base option gmap strings list.

Open Scope Z_scope.
Open Scope nat_scope.

(** ** Exceptions and results *)

Inductive exn : Type :=
| ValueError (msg : string)
| KeyError (key : string)
| IndexError.

Inductive result (A : Type) : Type :=
| Ok (a : A)
| Err (e : exn).
Arguments Ok {A} a.
Arguments Err {A} e.

Global Instance result_ret : MRet result := fun A a => Ok a.

Global Instance result_bind : MBind result := fun A B f m =>
  match m with
  | Ok a => f a
  | Err e => Err e
  end.

(** [for x in l: acc.append(f x)], stopping at the first exception. *)
Fixpoint mapM {A B : Type} (f : A -> result B) (l : list A) : result (list B) :=
  match l with
  | [] => Ok []
  | x :: l' => y ← f x; ys ← mapM f l'; Ok (y :: ys)
  end.

(** [l[i]] on a list. *)
Definition list_index {A : Type} (l : list A) (i : nat) : result A :=
  match nth_error l i with
  | Some x => Ok x
  | None => Err IndexError
  end.

(** [l[-1]]. *)
Definition list_last {A : Type} (l : list A) : result A :=
  match last l with
  | Some x => Ok x
  | None => Err IndexError
  end.

(** ** Python strings *)

Module PyStr.

Definition code (c : ascii) : nat := nat_of_ascii c.

Definition in_range (lo hi : nat) (c : ascii) : bool :=
  (lo <=? code c) && (code c <=? hi).

Definition is_space (c : ascii) : bool :=
  in_range 9 13 c || in_range 28 32 c.

Definition is_upper (c : ascii) : bool := in_range 65 90 c.
Definition is_lower (c : ascii) : bool := in_range 97 122 c.
Definition is_digit (c : ascii) : bool := in_range 48 57 c.

(** [\w] *)
Definition is_word (c : ascii) : bool :=
  is_upper c || is_lower c || is_digit c || Ascii.eqb c "_".

Fixpoint len (s : string) : nat :=
  match s with
  | EmptyString => 0
  | String _ t => S (len t)
  end.

Fixpoint cat (s t : string) : string :=
  match s with
  | EmptyString => t
  | String c s' => String c (cat s' t)
  end.

(** [s[:n]] and [s[n:]] for [n >= 0]. *)
Fixpoint take (n : nat) (s : string) : string :=
  match n, s with
  | S n', String c t => String c (take n' t)
  | _, _ => EmptyString
  end.

Fixpoint drop (n : nat) (s : string) : string :=
  match n, s with
  | S n', String _ t => drop n' t
  | _, _ => s
  end.

(** [s[0]] *)
Definition first (s : string) : result ascii :=
  match s with
  | String c _ => Ok c
  | EmptyString => Err IndexError
  end.

(** [s.startswith(w)], returning what follows [w]. *)
Fixpoint strip_prefix (w s : string) : option string :=
  match w with
  | EmptyString => Some s
  | String a w' =>
      match s with
      | String b s' => if Ascii.eqb a b then strip_prefix w' s' else None
      | EmptyString => None
      end
  end.

Definition starts_with (w s : string) : bool :=
  match strip_prefix w s with Some _ => true | None => false end.

(** [w in s] *)
Fixpoint contains (w s : string) : bool :=
  starts_with w s ||
  match s with
  | EmptyString => false
  | String _ t => contains w t
  end.

Definition mem (c : ascii) (chars : string) : bool :=
  contains (String c EmptyString) chars.

Fixpoint lstrip_by (p : ascii -> bool) (s : string) : string :=
  match s with
  | String c t => if p c then lstrip_by p t else s
  | EmptyString => EmptyString
  end.

Fixpoint rstrip_by (p : ascii -> bool) (s : string) : string :=
  match s with
  | String c t =>
      match rstrip_by p t with
      | EmptyString => if p c then EmptyString else String c EmptyString
      | t' => String c t'
      end
  | EmptyString => EmptyString
  end.

Definition strip_by (p : ascii -> bool) (s : string) : string :=
  rstrip_by p (lstrip_by p s).

(** [s.strip()] *)
Definition strip (s : string) : string := strip_by is_space s.

(** [s.strip(chars)] *)
Definition strip_chars (chars s : string) : string :=
  strip_by (fun c => mem c chars) s.

(** The scan shared by [split] and [replace]: [skip] counts the
    characters of an occurrence found earlier that are still to be
    passed over, so occurrences never overlap. *)
Fixpoint split_go (sep s : string) (skip : nat) : list string :=
  match skip with
  | S n =>
      match s with
      | String _ t => split_go sep t n
      | EmptyString => [EmptyString]
      end
  | 0 =>
      match s with
      | String c t =>
          if starts_with sep s
          then EmptyString :: split_go sep t (len sep - 1)
          else match split_go sep t 0 with
               | h :: r => String c h :: r
               | [] => [String c EmptyString]
               end
      | EmptyString => [EmptyString]
      end
  end.

(** [s.split(sep)] for a non-empty separator. *)
Definition split (sep s : string) : list string := split_go sep s 0.

(** [s.split(sep, 1)] *)
Fixpoint split1 (sep s : string) : list string :=
  match strip_prefix sep s with
  | Some rest => [EmptyString; rest]
  | None =>
      match s with
      | String c t =>
          match split1 sep t with
          | h :: r => String c h :: r
          | [] => [String c EmptyString]
          end
      | EmptyString => [EmptyString]
      end
  end.

(** [s.split()]: the maximal runs of characters that are not white
    space.  [words_go s] is the run that starts [s] (empty when [s]
    starts with white space) and the runs after it. *)
Fixpoint words_go (s : string) : string * list string :=
  match s with
  | String c t =>
      let '(w, ws) := words_go t in
      if is_space c
      then (EmptyString, match w with EmptyString => ws | _ => w :: ws end)
      else (String c w, ws)
  | EmptyString => (EmptyString, [])
  end.

Definition words (s : string) : list string :=
  let '(w, ws) := words_go s in
  match w with EmptyString => ws | _ => w :: ws end.

(** [s.replace(old, new)] for a non-empty [old]. *)
Fixpoint replace_go (old new s : string) (skip : nat) : string :=
  match skip with
  | S n =>
      match s with
      | String _ t => replace_go old new t n
      | EmptyString => EmptyString
      end
  | 0 =>
      match s with
      | String c t =>
          if starts_with old s
          then cat new (replace_go old new t (len old - 1))
          else String c (replace_go old new t 0)
      | EmptyString => EmptyString
      end
  end.

Definition replace (old new s : string) : string := replace_go old new s 0.

(** [sep.join(l)] *)
Fixpoint join (sep : string) (l : list string) : string :=
  match l with
  | [] => EmptyString
  | [x] => x
  | x :: l' => cat x (cat sep (join sep l'))
  end.

(** [str(n)] for an [int]. *)
Definition of_Z (z : Z) : string := NilEmpty.string_of_int (Z.to_int z).

End PyStr.

Infix "^^" := PyStr.cat (at level 60, right associativity).

(** ** Regular expressions *)

Module Re.

Import PyStr.

(** The constructs the patterns of the source use. *)
Inductive regex : Type :=
| Chars (p : ascii -> bool)   (* a class: [[A-Z]], [\w], [\s], ... *)
| Lit (w : string)            (* a run of literal characters *)
| Eos                         (* [$] *)
| Seq (a b : regex)
| Alt (a b : regex)           (* [a|b] *)
| Opt (a : regex)             (* [a?] *)
| Star (a : regex)            (* [a*] *)
| Group (i : nat) (a : regex). (* the [i]-th capturing [( )] *)

(** [a+] *)
Definition Plus (a : regex) : regex := Seq a (Star a).

(** [$] holds at the end of the string and before a newline that ends
    it. *)
Definition at_end (s : string) : bool :=
  match s with
  | EmptyString => true
  | String c EmptyString => Ascii.eqb c "010"
  | _ => false
  end.

Definition captures : Type := list (nat * string).

(** The text of [s] in front of its suffix [t]. *)
Definition consumed (s t : string) : string := take (len s - len t) s.

Section Matcher.

Context {A : Type}.

(** The rounds of a starred expression whose body is matched by
    [body]: a round is kept only when it consumes something, and
    there are [n] rounds at most; when the rounds that follow and [k]
    refuse, the matcher settles for fewer rounds. *)
Fixpoint star_rounds
    (body : string -> captures ->
            (string -> captures -> option A) -> option A)
    (k : string -> captures -> option A)
    (n : nat) (s : string) (g : captures) : option A :=
  match n with
  | 0 => k s g
  | S n' =>
      match body s g
              (fun t g' =>
                 if len t <? len s
                 then star_rounds body k n' t g'
                 else None) with
      | Some x => Some x
      | None => k s g
      end
  end.

(** [rmatch r s g k]: match [r] at the start of [s], then hand what
    is left of [s] and the captures to [k]; when [k] refuses, fall
    back to the next way of matching [r], in the order Python tries
    them.  No round of a star can consume nothing, so [len s] rounds
    are all there can be. *)
Fixpoint rmatch (r : regex) (s : string) (g : captures)
    (k : string -> captures -> option A) {struct r} : option A :=
  match r with
  | Chars p =>
      match s with
      | String c t => if p c then k t g else None
      | EmptyString => None
      end
  | Lit w =>
      match strip_prefix w s with
      | Some t => k t g
      | None => None
      end
  | Eos => if at_end s then k s g else None
  | Seq a b => rmatch a s g (fun t g' => rmatch b t g' k)
  | Alt a b =>
      match rmatch a s g k with
      | Some x => Some x
      | None => rmatch b s g k
      end
  | Opt a =>
      match rmatch a s g k with
      | Some x => Some x
      | None => k s g
      end
  | Star a => star_rounds (rmatch a) k (len s) s g
  | Group i a => rmatch a s g (fun t g' => k t ((i, consumed s t) :: g'))
  end.

End Matcher.

(** A match at the start of [s]: its length and its captures. *)
Definition match_here (r : regex) (s : string) : option (nat * captures) :=
  rmatch r s [] (fun t g => Some (len s - len t, g)).

(** [re.search(r, s)]: start and end of the leftmost match; [i] is the
    offset of [s] in the whole string. *)
Fixpoint search_from (r : regex) (s : string) (i : nat) : option (nat * nat) :=
  match match_here r s with
  | Some (n, _) => Some (i, i + n)
  | None =>
      match s with
      | String _ t => search_from r t (S i)
      | EmptyString => None
      end
  end.

Definition search (r : regex) (s : string) : option (nat * nat) :=
  search_from r s 0.

(** [re.sub(r, repl, s)] for a pattern that never matches the empty
    string (none of the source's does): the matches, left to right and
    not overlapping, are replaced by [repl].  [skip] is as in
    [PyStr.split_go]. *)
Fixpoint sub_go (r : regex) (repl s : string) (skip : nat) : string :=
  match skip with
  | S n =>
      match s with
      | String _ t => sub_go r repl t n
      | EmptyString => EmptyString
      end
  | 0 =>
      match s with
      | String c t =>
          match match_here r s with
          | Some (S n, _) => repl ^^ sub_go r repl t n
          | _ => String c (sub_go r repl t 0)
          end
      | EmptyString => EmptyString
      end
  end.

Definition sub (r : regex) (repl s : string) : string := sub_go r repl s 0.

(** [re.findall(r, s)] for a pattern with two groups: the pairs
    (group 1, group 2) of the matches, left to right, not overlapping. *)
Definition group (g : captures) (i : nat) : string :=
  match List.find (fun p => Nat.eqb (fst p) i) g with
  | Some p => snd p
  | None => EmptyString
  end.

Fixpoint findall2_go (r : regex) (s : string) (skip : nat)
    : list (string * string) :=
  match skip with
  | S n =>
      match s with
      | String _ t => findall2_go r t n
      | EmptyString => []
      end
  | 0 =>
      match s with
      | String c t =>
          match match_here r s with
          | Some (S n, g) => (group g 1, group g 2) :: findall2_go r t n
          | _ => findall2_go r t 0
          end
      | EmptyString => []
      end
  end.

Definition findall2 (r : regex) (s : string) : list (string * string) :=
  findall2_go r s 0.

(** Sequences and alternatives of several items. *)
Fixpoint seq (l : list regex) : regex :=
  match l with
  | [] => Lit EmptyString
  | [a] => a
  | a :: l' => Seq a (seq l')
  end.

Fixpoint alt (l : list regex) : regex :=
  match l with
  | [] => Chars (fun _ => false)
  | [a] => a
  | a :: l' => Alt a (alt l')
  end.

(** Character classes of the source's patterns. *)
Definition upper : regex := Chars is_upper.                     (* [A-Z] *)
Definition space : regex := Chars is_space.                     (* \s *)
Definition word : regex := Chars is_word.                       (* \w *)
Definition one_of (chars : string) : regex :=
  Chars (fun c => mem c chars).

End Re.

Import PyStr Re.

(** ** Constants *)

Definition POSITION_CODE_DICT : gmap string Z :=
  list_to_map
    [("pitcher", 1%Z); ("catcher", 2%Z); ("first", 3%Z); ("second", 4%Z);
     ("third", 5%Z); ("shortstop", 6%Z); ("left", 7%Z); ("center", 8%Z);
     ("right", 9%Z); ("designated", 10%Z)].

Definition ON_BASE_SUMMARY_DICT : gmap string string :=
  list_to_map
    [("Single", "1B"); ("Double", "2B"); ("Triple", "3B");
     ("Hit By Pitch", "HBP"); ("Home Run", "HR"); ("Walk", "BB");
     ("Intent Walk", "IBB")].

(** An [OrderedDict]: the order of the entries is the order of the scan. *)
Definition PLAY_CODE_ORDERED_DICT : list (string * string) :=
  [("picks off", "PO");
   ("caught stealing", "CS");
   ("wild pitch", "WP");
   ("passed ball", "PB");
   ("balk", "BLK");
   ("steals", "S");
   ("fan interference", "FI");
   ("catcher interference", "CI");
   ("error", "E");
   ("ground", "G");
   ("grand slam", "HR");
   ("homers", "HR");
   ("pop", "P");
   ("line", "L");
   ("fly", "F");
   ("flies", "F");
   ("sacrifice fly", "SF");
   ("hit by pitch", "HBP");
   ("bunt", "B");
   ("sacrifice bunt", "SB");
   ("walks", "BB");
   ("intentionally walks", "IBB");
   ("called out on strikes", "ꓘ");
   ("strikes out", "K");
   ("choice", "FC")].

Definition NO_HIT_CODE_LIST : list string := ["K"; "ꓘ"; "BB"; "IBB"].

Definition INCREMENT_BASE_DICT : gmap string string :=
  list_to_map [("1st", "2nd"); ("2nd", "3rd"); ("3rd", "home")].

(** [d[key]] on a dict with string keys. *)
Definition dict_getitem {V : Type} (d : gmap string V) (key : string) : result V :=
  match d !! key with
  | Some v => Ok v
  | None => Err (KeyError key)
  end.

(** ** Name normalizer *)

(** [while match: ...] of [strip_this_suffix], [fuel] rounds at most. *)
Fixpoint strip_this_suffix_loop (fuel : nat) (pattern suffix : regex)
    (input_str : string) : string :=
  match fuel with
  | 0 => input_str
  | S fuel' =>
      match search pattern input_str with
      | None => input_str
      | Some (start, end_) =>
          let str_beginning := take start input_str in
          let str_middle :=
            sub suffix "." (take (end_ - start) (drop start input_str)) in
          let str_end := drop end_ input_str in
          strip_this_suffix_loop fuel' pattern suffix
            (str_beginning ^^ str_middle ^^ str_end)
      end
  end.

Definition strip_this_suffix (pattern suffix : regex) (input_str : string)
    : string :=
  let input_str :=
    strip_this_suffix_loop (len input_str) pattern suffix input_str in
  let input_str := sub suffix "" input_str in
  strip input_str.

Definition re_Jr_dot : regex := Lit " Jr.".                        (* r' Jr\.' *)
Definition re_Sr_dot : regex := Lit " Sr.".                        (* r' Sr\.' *)
Definition re_Jr_dot_cap : regex := seq [Lit " Jr."; Plus space; upper].
                                                          (* r' Jr\.\s+[A-Z]' *)
Definition re_Sr_dot_cap : regex := seq [Lit " Sr."; Plus space; upper].
                                                          (* r' Sr\.\s+[A-Z]' *)
Definition re_II : regex := Lit " II".
Definition re_III : regex := Lit " III".
Definition re_IV : regex := Lit " IV".
Definition re_St_dot : regex := Lit " St. ".                      (* r' St\. ' *)

Definition strip_suffixes (input_str : string) : string :=
  let input_str := strip_this_suffix re_Jr_dot_cap re_Jr_dot input_str in
  let input_str := strip_this_suffix re_Sr_dot_cap re_Sr_dot input_str in
  let input_str := sub re_II "" input_str in
  let input_str := sub re_III "" input_str in
  let input_str := sub re_IV "" input_str in
  let input_str := sub re_St_dot " St " input_str in
  input_str.

(** [fix_initials] of the older [baseball.py]. *)

Definition re_two_initials : regex :=                    (* r'[A-Z]\.\s+[A-Z]\.\s+' *)
  seq [upper; Lit "."; Plus space; upper; Lit "."; Plus space].
Definition re_initial_cap : regex :=                          (* r'[A-Z]\.\s+[A-Z]' *)
  seq [upper; Lit "."; Plus space; upper].
Definition re_dot_spaces : regex := seq [Lit "."; Plus space].          (* r'\.\s+' *)

Fixpoint fix_initials_loop1 (fuel : nat) (input_str : string) : string :=
  match fuel with
  | 0 => input_str
  | S fuel' =>
      match search re_two_initials input_str with
      | None => input_str
      | Some (index_start, index_end) =>
          let string_start := take index_start input_str in
          let string_end := drop index_end input_str in
          let string_middle :=
            take (index_end - index_start) (drop index_start input_str) in
          let string_middle := sub re_dot_spaces "" string_middle in
          fix_initials_loop1 fuel'
            (string_start ^^ string_middle ^^ " " ^^ string_end)
      end
  end.

Fixpoint fix_initials_loop2 (fuel : nat) (input_str : string) : string :=
  match fuel with
  | 0 => input_str
  | S fuel' =>
      match search re_initial_cap input_str with
      | None => input_str
      | Some (index_start, index_end) =>
          let string_start := take index_start input_str in
          let string_middle :=
            replace "." ""
              (take (index_end - index_start) (drop index_start input_str)) in
          let string_end := drop index_end input_str in
          fix_initials_loop2 fuel'
            (strip (string_start ^^ string_middle ^^ string_end))
      end
  end.

Definition fix_initials (input_str : string) : string :=
  let input_str := fix_initials_loop1 (len input_str) input_str in
  fix_initials_loop2 (len input_str) input_str.

(** The two steps in the order [get_throws_str] of the older file applies
    them. *)
Definition normalize (s : string) : string := fix_initials (strip_suffixes s).

(** [PlateAppearance.__init__] of the older [baseball.py]: the
    description it stores. *)
Definition init_description (plate_appearance_description : string) : string :=
  let plate_appearance_description :=
    fix_initials plate_appearance_description in
  let plate_appearance_description :=
    sub re_dot_spaces ". " plate_appearance_description in
  strip plate_appearance_description.

(** ** Players and the roster index *)

Record Player : Type := mkPlayer {
  last_name : string;
  first_name : string;
  mlb_id : Z;
  obp : option Z;      (* rates and jersey number are carried, never read *)
  slg : option Z;      (* by the operations below; kept in thousandths   *)
  number : option Z
}.

Definition full_name (p : Player) : string :=
  first_name p ^^ " " ^^ last_name p.

(** A key handed to the roster: an [int], a [str], or a value of another
    type, of which only its rendering by [str.format] matters. *)
Inductive player_key : Type :=
| KeyInt (player_id : Z)
| KeyStr (player_name : string)
| KeyOther (shown : string).

Definition show_key (k : player_key) : string :=
  match k with
  | KeyInt i => of_Z i
  | KeyStr s => s
  | KeyOther shown => shown
  end.

Definition re_Jr_end : regex := Seq (Lit " Jr") Eos.               (* r' Jr$' *)
Definition re_Sr_end : regex := Seq (Lit " Sr") Eos.               (* r' Sr$' *)
Definition re_II_end : regex := Seq (Lit " II") Eos.               (* r' II$' *)
Definition re_III_end : regex := Seq (Lit " III") Eos.            (* r' III$' *)
Definition re_IV_end : regex := Seq (Lit " IV") Eos.               (* r' IV$' *)

Module Team.

Record t : Type := mk {
  name : string;
  abbreviation : string;
  player_id_dict : gmap Z Player;
  player_name_dict : gmap string Player;
  player_last_name_dict : gmap string Player
}.

(** [Team(name, abbreviation)] *)
Definition init (name abbreviation : string) : t :=
  mk name abbreviation ∅ ∅ ∅.

(** The string a [str] key is reduced to before the fuzzy lookup. *)
Definition reduce_name (player_name : string) : string :=
  let player_name := sub re_Jr_end "" (strip_chars " ." player_name) in
  let player_name := sub re_Sr_end "" (strip_chars " ." player_name) in
  let player_name := sub re_II_end "" (strip player_name) in
  let player_name := sub re_III_end "" (strip player_name) in
  let player_name := sub re_IV_end "" (strip player_name) in
  strip_suffixes (strip player_name).

Definition find_player (self : t) (key : player_key)
    : result (option Player) :=
  match key with
  | KeyInt player_id => Ok (player_id_dict self !! player_id)
  | KeyStr player_name =>
      match player_name_dict self !! player_name with
      | Some player => Ok (Some player)
      | None =>
          let player_name := reduce_name player_name in
          first_name_initial ← first player_name;
          last_name ← list_last (words player_name);
          let initial_plus_last_name := String first_name_initial last_name in
          Ok (player_last_name_dict self !! initial_plus_last_name)
      end
  | KeyOther shown =>
      Err (ValueError
             ("Player key: " ^^ shown ^^ " must be either int or str"))
  end.

(** The key under which [append] files a last name. *)
Definition short_last_name (last_name : string) : result string :=
  let last_name :=
    sub re_Jr_end "" (replace "," "" (strip_chars ". " last_name)) in
  let last_name :=
    sub re_Sr_end "" (replace "," "" (strip_chars ". " last_name)) in
  let last_name := sub re_II_end "" (strip last_name) in
  let last_name := sub re_III_end "" (strip last_name) in
  let last_name := sub re_IV_end "" (strip last_name) in
  let last_name := sub re_St_dot " St " (strip last_name) in
  if contains " " last_name
  then list_index (words last_name) 1
  else Ok last_name.

(** [append] updates the three indices in place, one after the other;
    it returns the roster as it is left and the exception, if any, that
    cut the updates short. *)
Definition append (self : t) (player : Player) : t * result unit :=
  match short_last_name (last_name player) with
  | Err e => (self, Err e)
  | Ok last_name =>
      let self :=
        mk (name self) (abbreviation self)
           (<[mlb_id player := player]> (player_id_dict self))
           (player_name_dict self) (player_last_name_dict self) in
      let self :=
        mk (name self) (abbreviation self) (player_id_dict self)
           (<[full_name player := player]> (player_name_dict self))
           (player_last_name_dict self) in
      match first (first_name player) with
      | Err e => (self, Err e)
      | Ok initial =>
          (mk (name self) (abbreviation self) (player_id_dict self)
              (player_name_dict self)
              (<[String initial last_name := player]>
                 (player_last_name_dict self)),
           Ok tt)
      end
  end.

(** [__contains__] *)
Definition contains (self : t) (key : player_key) : result bool :=
  player ← find_player self key;
  Ok (match player with Some _ => true | None => false end).

(** [__getitem__] *)
Definition getitem (self : t) (key : player_key) : result Player :=
  player ← find_player self key;
  match player with
  | Some player => Ok player
  | None => Err (ValueError (show_key key ^^ " not found in team"))
  end.

End Team.

(** ** Plate appearances *)

Module PlateAppearance.

(** What the constructor is given. *)
Record args : Type := mkArgs {
  batting_team : Team.t;
  plate_appearance_description : string;
  plate_appearance_summary : string;
  pitcher : Player;
  batter : Player;
  inning_outs : Z;
  scoring_runners_list : list Player;
  runners_batted_in_list : list Player;
  event_list : list string
}.

(** The object once [__init__] has run to its end. *)
Record t : Type := mk {
  given : args;
  out_runners_list : list (Player * string);
  hit_location : option string;
  error_str : option string;
  got_on_base : bool;
  scorecard_summary : string
}.

Definition is_known_base (s : string) : bool :=
  bool_decide (s ∈ ["1st"; "2nd"; "3rd"]).

(** One round of the loop of [process_defense_predicate_list]: the code
    to append, if any. *)
Definition process_defense_position (defense_position : string)
    : result (option string) :=
  match POSITION_CODE_DICT !! defense_position with
  | Some code => Ok (Some (of_Z code))
  | None =>
      if is_known_base (strip_chars " ." defense_position)
      then Ok None
      else Err (ValueError (defense_position ^^ " not in position code dict"))
  end.

Fixpoint process_defense_predicate_list (defense_player_order : list string)
    : result (list string) :=
  match defense_player_order with
  | [] => Ok []
  | defense_position :: rest =>
      code ← process_defense_position defense_position;
      defense_code_order ← process_defense_predicate_list rest;
      Ok (match code with
          | Some c => c :: defense_code_order
          | None => defense_code_order
          end)
  end.

(** One round of the loop of [get_defense_player_order]. *)
Definition defense_player (this_position : string) : result string :=
  let this_position :=
    if contains "deep" this_position
    then strip (replace "deep" "" this_position)
    else this_position in
  let this_position :=
    if contains "shallow" this_position
    then strip (replace "shallow" "" this_position)
    else this_position in
  w ← list_index (words this_position) 0;
  list_index (split "-" w) 0.

Definition get_defense_player_order (defense_predicate_list : list string)
    : result (list string) :=
  mapM defense_player defense_predicate_list.

Definition get_defense_predicate_list (description_str : string)
    : result (list string) :=
  '(description_str, defense_predicate_list) ←
    (if contains "caught stealing" description_str
        || contains "on fan interference" description_str
        || contains "picks off" description_str
        || contains "wild pitch by" description_str
     then Ok (description_str, [])
     else if contains "catcher interference by" description_str
     then Ok (description_str, ["catcher"])
     else if contains "fielded by" description_str
     then description_str ← list_index (split " fielded by " description_str) 1;
          Ok (description_str, [description_str])
     else if contains ", " description_str && contains " to " description_str
     then description_str ← list_index (split ", " description_str) 1;
          Ok (description_str, split " to " description_str)
     else if contains " to " description_str
     then Ok (description_str, List.tl (split " to " description_str))
     else Ok (description_str, []));
  if contains "error by" description_str
  then description_str ← list_index (split " error by " description_str) 1;
       Ok [description_str]
  else Ok defense_predicate_list.

Definition get_defense_code_order (description_str : string)
    : result (list string) :=
  defense_predicate_list ← get_defense_predicate_list description_str;
  defense_player_order ← get_defense_player_order defense_predicate_list;
  process_defense_predicate_list defense_player_order.

(** The phrases that put a runner out, as both patterns below list
    them. *)
Definition re_out_phrase : regex :=
  alt [Lit "out at";
       seq [Opt (Lit "was "); Lit "picked off and caught stealing"];
       seq [Opt (Lit "was "); Lit "caught stealing"];
       seq [Opt (Lit "was "); Lit "picked off"];
       seq [Opt (Lit "was "); Lit "doubled off"]].

(** [(?:...)[1-3,h][snro][tdm][e]?[\w\s]*, ] *)
Definition re_defense_suffix : regex :=
  seq [re_out_phrase;
       one_of "123,h"; one_of "snro"; one_of "tdm"; Opt (one_of "e");
       Star (Chars (fun c => is_word c || is_space c));
       Lit ", "].

Definition get_defense_suffix (suffix_str : string) : result string :=
  match search re_defense_suffix suffix_str with
  | Some (start, _) =>
      let suffix_str := drop start suffix_str in
      suffix_code_order ← get_defense_code_order suffix_str;
      Ok (" (" ^^ join "-" suffix_code_order ^^ ")")
  | None => Ok ""
  end.

(** [[\w'-]] and [[A-Z,a-z]] *)
Definition name_char : regex :=
  Chars (fun c => is_word c || mem c "'-").
Definition name_start : regex :=
  Chars (fun c => is_upper c || mem c "," || is_lower c).

Definition re_out_runner : regex :=
  seq [Group 1
         (seq [upper; Plus name_char; Plus space;
               Opt (seq [name_start; Plus name_char; Plus space]);
               Opt (seq [name_start; Plus name_char; Plus space]);
               upper; Plus name_char]);
       Plus space;
       re_out_phrase;
       Plus (Lit " ");
       Group 2 (Plus word)].

(** [escape(name) + r' (?:was )?doubled off'] *)
Definition re_doubled_off (name : string) : regex :=
  seq [Lit name; Lit " "; Opt (Lit "was "); Lit "doubled off"].

(** One round of the loop of [get_out_runners_list]. *)
Definition out_runner (team : Team.t) (description : string)
    (match_ : string * string) : result (Player * string) :=
  let '(name, base) := match_ in
  base ← (match search (re_doubled_off name) description with
          | Some _ => dict_getitem INCREMENT_BASE_DICT base
          | None => Ok base
          end);
  player ← Team.getitem team (KeyStr name);
  Ok (player, base).

Definition get_out_runners_list (self : args)
    : result (list (Player * string)) :=
  let description := strip_suffixes (plate_appearance_description self) in
  let runner_name_list := findall2 re_out_runner description in
  mapM (out_runner (batting_team self) description) runner_name_list.

Definition get_throws_str (self : args) : result (string * string) :=
  let description_str := strip_suffixes (plate_appearance_description self) in
  '(description_str, suffix_str) ←
    (if contains ". " description_str
     then match split1 ". " description_str with
          | [a; b] => Ok (a, b)
          | _ => Err (ValueError "not enough values to unpack")
          end
     else Ok (description_str, ""));
  let description_str :=
    if contains ", deflected" description_str
    then hd "" (split ", deflected" description_str)
    else description_str in
  let description_str :=
    if contains ", assist" description_str
    then hd "" (split ", assist" description_str)
    else description_str in
  description_str ←
    (if contains ": " description_str
     then list_index (split ": " description_str) 1
     else Ok description_str);
  defense_code_order ← get_defense_code_order description_str;
  let defense_str := join "-" defense_code_order in
  defense_suffix ← get_defense_suffix suffix_str;
  Ok (defense_str, defense_suffix).

(** The clause [get_play_str] classifies. *)
Definition primary_clause (self : args) : string :=
  let description_str := strip_suffixes (plate_appearance_description self) in
  if contains ". " description_str
  then hd "" (split ". " description_str)
  else description_str.

(** [for keyword, this_code in PLAY_CODE_ORDERED_DICT.items(): ...],
    started with [code]. *)
Fixpoint scan_keywords (table : list (string * string))
    (description_str : string) (code : option string) : option string :=
  match table with
  | [] => code
  | (keyword, this_code) :: table' =>
      scan_keywords table' description_str
        (if contains keyword description_str then Some this_code else code)
  end.

Definition disqualified_description (description_str : string) : bool :=
  contains "out at" description_str
  || contains "singles" description_str
  || contains "doubles" description_str
  || contains "triples" description_str
  || contains "hits a home run" description_str
  || contains "ejected" description_str.

(** [not code] *)
Definition falsy (code : option string) : bool :=
  match code with
  | None | Some EmptyString => true
  | Some _ => false
  end.

Definition get_play_str (self : args) : result string :=
  let description_str := primary_clause self in
  let code := scan_keywords PLAY_CODE_ORDERED_DICT description_str None in
  let code :=
    if String.eqb (plate_appearance_summary self) "Fan interference"
    then Some "FI"
    else code in
  if falsy code
  then if disqualified_description description_str
       then Ok ""
       else Err (ValueError ("No keyword found in plate description: "
                             ^^ plate_appearance_description self))
  else Ok (default "" code).

Definition get_hit_location (self : args) : result (option string) :=
  play_str ← get_play_str self;
  '(throws_str, _) ← get_throws_str self;
  match throws_str with
  | String c _ =>
      if bool_decide (play_str ∈ NO_HIT_CODE_LIST)
      then Ok None
      else Ok (Some (play_str ^^ String c ""))
  | EmptyString => Ok None
  end.

Definition get_error_str (self : args) : result (option string) :=
  let description := plate_appearance_description self in
  if contains "error" description
  then description_str ← list_index (split " error by " description) 1;
       defense_player ← list_index (words description_str) 0;
       defense_code ← dict_getitem POSITION_CODE_DICT defense_player;
       Ok (Some ("E" ^^ of_Z defense_code))
  else if contains "catcher interference" description
  then Ok (Some "E2")
  else Ok None.

Definition get_on_base_and_summary (self : args) : result (bool * string) :=
  '(throws_str, suffix_str) ← get_throws_str self;
  match ON_BASE_SUMMARY_DICT !! plate_appearance_summary self with
  | Some notation => Ok (true, notation ^^ suffix_str)
  | None =>
      play_str ← get_play_str self;
      Ok (false, play_str ^^ throws_str ^^ suffix_str)
  end.

(** [__init__]: the derived fields are computed in this order, and an
    exception in any of them leaves no object. *)
Definition init (self : args) : result t :=
  out_runners_list ← get_out_runners_list self;
  hit_location ← get_hit_location self;
  error_str ← get_error_str self;
  '(got_on_base, scorecard_summary) ← get_on_base_and_summary self;
  Ok (mk self out_runners_list hit_location error_str got_on_base
         scorecard_summary).

End PlateAppearance.

Import PlateAppearance.

(** ** Vocabulary of the statements *)

(** One base further: 1st to 2nd, 2nd to 3rd, 3rd to home. *)
Inductive one_step_past : string -> string -> Prop :=
| step_1st : one_step_past "1st" "2nd"
| step_2nd : one_step_past "2nd" "3rd"
| step_3rd : one_step_past "3rd" "home".

(** The test of [get_out_runners_list] for a doubled-off runner: [name],
    one space, then "doubled off" or "was doubled off" somewhere in the
    description. *)
Definition doubled_off_named (description name : string) : bool :=
  match search (re_doubled_off name) description with
  | Some _ => true
  | None => false
  end.

(** The same test read on the text: the name followed by " doubled off"
    or by " was doubled off" occurs in the description. *)
Definition doubled_off_phrase (description name : string) : bool :=
  contains (name ^^ " doubled off") description
  || contains (name ^^ " was doubled off") description.

(** Strings none of whose characters satisfy [p]. *)
Fixpoint none_of (p : ascii -> bool) (s : string) : bool :=
  match s with
  | String c t => negb (p c) && none_of p t
  | EmptyString => true
  end.

(** White space or a period: what [strip(' .')] and [strip()] take off. *)
Definition blank_or_dot (c : ascii) : bool := is_space c || Ascii.eqb c ".".

(** A short last name that carries nothing the lookup strips: no white
    space, no period, not "Jr" or "Sr", not starting with "II" or "IV",
    not empty. *)
Definition suffix_free (short : string) : bool :=
  none_of blank_or_dot short
  && negb (starts_with "II" short)
  && negb (starts_with "IV" short)
  && negb (String.eqb short "Jr")
  && negb (String.eqb short "Sr")
  && negb (String.eqb short "").

(** The initial, a space, the short last name: "M Trout". *)
Definition fuzzy_query (initial : ascii) (short : string) : string :=
  String initial (" " ^^ short).

(** Patterns that can only match at a space: all the suffix patterns
    start with a literal space. *)
Definition needs_space (r : regex) : Prop :=
  forall s, (forall t, s <> String " " t) -> match_here r s = None.

(** What stays of a stripped string under such a substitution still
    starts with a character that is not white space, or is empty. *)
Definition clean_head (s : string) : Prop :=
  s = "" \/ exists c t, s = String c t /\ is_space c = false.

(** No match of [r] anywhere in [s]. *)
Definition unmatched (r : regex) (s : string) : Prop :=
  forall p, match_here r (drop p s) = None.

(** A token that is neither a position name nor a base name. *)
Definition unknown_position (defense_position : string) : bool :=
  match POSITION_CODE_DICT !! defense_position with
  | Some _ => false
  | None => negb (is_known_base (strip_chars " ." defense_position))
  end.

(** The words of the phrases that put a runner out. *)
Definition out_phrase_words : list string :=
  ["out at"; "picked off and caught stealing"; "caught stealing";
   "picked off"; "doubled off"].

(** One of the phrases occurs in [s]. *)
Definition has_out_phrase (s : string) : bool :=
  existsb (fun p => contains p s) out_phrase_words.

(** One of the phrases occurs in [s] with a character of [[1-3,h]] right
    behind it, no space between. *)
Definition has_glued_out_phrase (s : string) : bool :=
  existsb
    (fun p => existsb (fun c => contains (p ^^ String c "") s)
                (list_ascii_of_string "123,h"))
    out_phrase_words.

(** The code of a position name, as the scorecard shows it. *)
Definition position_code (defense_position : string) : option string :=
  of_Z <$> POSITION_CODE_DICT !! defense_position.

(** The ten position codes. *)
Definition position_codes : list string :=
  ["1"; "2"; "3"; "4"; "5"; "6"; "7"; "8"; "9"; "10"].

(** The error codes: "E1" to "E10". *)
Definition error_codes : list string := (fun c => "E" ^^ c) <$> position_codes.

(** A string that is not empty and does not end in white space. *)
Definition last_ok (s : string) : Prop :=
  s <> "" /\ rstrip_by is_space s = s.

(** White space, a period or a comma: what [append] cleans a last name
    of. *)
Definition blank_dot_comma (c : ascii) : bool :=
  is_space c || Ascii.eqb c "." || Ascii.eqb c ",".

(** White space or a hyphen: where [get_defense_player_order] cuts a
    token. *)
Definition blank_or_hyphen (c : ascii) : bool :=
  is_space c || Ascii.eqb c "-".

(** One of [phrases] occurs in [s]. *)
Definition mentions (phrases : list string) (s : string) : bool :=
  existsb (fun p => contains p s) phrases.

(** What [get_throws_str] and [get_defense_predicate_list] look for in
    a description: the sentence break, the cuts and the fielder phrases. *)
Definition fielder_phrases : list string :=
  [". "; ", deflected"; ", assist"; ": "; "catcher interference by";
   "fielded by"; " to "; "error by"].

(** [s] starts with white space. *)
Definition head_is_space (s : string) : bool :=
  match s with
  | String c _ => is_space c
  | EmptyString => false
  end.

(** Every period of [s] that has white space behind it has one space
    character behind it, and no white space after that. *)
Fixpoint breaks_normalized (s : string) : bool :=
  match s with
  | String c t =>
      (if Ascii.eqb c "." && head_is_space t
       then starts_with " " t && negb (head_is_space (drop 1 t))
       else true)
      && breaks_normalized t
  | EmptyString => true
  end.

(** The clause of which [get_throws_str] resolves the chain, and the
    text it hands to [get_defense_suffix]: the description cut at the
    first period-and-space, then at ", deflected" and ", assist", and
    taken after ": ". *)
Definition throws_clauses (self : args) : result (string * string) :=
  let description_str := strip_suffixes (plate_appearance_description self) in
  '(description_str, suffix_str) ←
    (if contains ". " description_str
     then match split1 ". " description_str with
          | [a; b] => Ok (a, b)
          | _ => Err (ValueError "not enough values to unpack")
          end
     else Ok (description_str, ""));
  let description_str :=
    if contains ", deflected" description_str
    then hd "" (split ", deflected" description_str)
    else description_str in
  let description_str :=
    if contains ", assist" description_str
    then hd "" (split ", assist" description_str)
    else description_str in
  description_str ←
    (if contains ": " description_str
     then list_index (split ": " description_str) 1
     else Ok description_str);
  Ok (description_str, suffix_str).

(** The defensive-position tokens [get_defense_code_order] extracts from
    a clause, before it looks them up. *)
Definition extracted_tokens (description_str : string) : result (list string) :=
  defense_predicate_list ← get_defense_predicate_list description_str;
  get_defense_player_order defense_predicate_list.

(** The part of the suffix text of which [get_defense_suffix] resolves
    the chain, if there is one. *)
Definition suffix_clause (suffix_str : string) : option string :=
  match search re_defense_suffix suffix_str with
  | Some (start, _) => Some (drop start suffix_str)
  | None => None
  end.

(** The generational suffixes, as words. *)
Definition generational_suffixes : list string :=
  ["Jr"; "Sr"; "II"; "III"; "IV"].

(** A word of a last name that is free of suffixes: not empty, without
    white space, period or comma, and not a generational suffix. *)
Definition name_word (w : string) : bool :=
  negb (String.eqb w "")
  && none_of blank_dot_comma w
  && negb (existsb (String.eqb w) generational_suffixes).

(** The short last name of a last name of the words [ws], as the
    registration is described: the name when it is one word, its second
    word when it has more. *)
Definition short_word (ws : list string) : string :=
  match ws with
  | [] => ""
  | [w] => w
  | _ :: w :: _ => w
  end.

(** A word that starts like the numerals the stripper takes out. *)
Definition numeral_start (w : string) : bool :=
  starts_with "II" w || starts_with "IV" w.

(** ** Sample data for the concrete runs *)

Definition mike_trout : Player :=
  mkPlayer "Trout" "Mike" 545361%Z None None (Some 27%Z).
Definition joe_smith : Player :=
  mkPlayer "Smith" "Joe" 2%Z None None None.

Definition empty_roster : Team.t := Team.init "Angels" "LAA".
Definition angels : Team.t :=
  fst (Team.append (fst (Team.append empty_roster mike_trout)) joe_smith).

Definition appearance (team : Team.t) (description summary : string)
    : PlateAppearance.args :=
  PlateAppearance.mkArgs team description summary mike_trout mike_trout 0%Z
    [] [] [].

Definition doubled_off_example : PlateAppearance.args :=
  appearance angels
    "Mike Trout lines out to second baseman Bob Hill. Joe Smith doubled off 2nd, second baseman Bob Hill to shortstop Al Roe."
    "Lineout".

Definition doubled_off_second_base : PlateAppearance.args :=
  appearance angels
    "Mike Trout lines out to second. Joe Smith doubled off second base, 4-6"
    "Lineout".

Definition roster_miss_example : PlateAppearance.args :=
  appearance empty_roster
    "Mike Trout singles to center field. Joe Smith out at 2nd." "Single".

Definition no_keyword_example : PlateAppearance.args :=
  appearance empty_roster "Mike Trout does something." "Strikeout".

Definition unknown_position_example : PlateAppearance.args :=
  appearance empty_roster "Mike Trout grounds out, shortstop to pitcherr."
    "Groundout".

Definition unknown_suffix_token_example : PlateAppearance.args :=
  appearance empty_roster
    "Mike Trout flies out to center fielder Bob Hill. Joe Smith out at2nd, shortstop Al Roe to goalie Bo Day."
    "Flyout".

Definition vincent_van_gogh : Player :=
  mkPlayer "Van Gogh" "Vincent" 7%Z None None None.

(** * Properties *)

(** ** Facts about the string primitives *)

Lemma len_cat s t : len (s ^^ t) = len s + len t.
Proof. induction s as [|c s IH]; simpl; [reflexivity | rewrite IH; reflexivity]. Qed.

Lemma len_take n s : len (take n s) = Nat.min n (len s).
Proof.
  revert s. induction n as [|n IH]; intros [|c s]; simpl; try reflexivity.
  rewrite IH. reflexivity.
Qed.

Lemma len_drop n s : len (drop n s) = len s - n.
Proof.
  revert s. induction n as [|n IH]; intros [|c s]; simpl; try reflexivity.
  apply IH.
Qed.

Lemma strip_prefix_cat w s t : strip_prefix w s = Some t -> s = w ^^ t.
Proof.
  revert s. induction w as [|a w IH]; intros [|b s] H; simpl in *;
    try congruence.
  destruct (Ascii.eqb_spec a b) as [->|]; [|discriminate].
  rewrite (IH _ H). reflexivity.
Qed.

Lemma strip_prefix_head a w c s :
  a <> c -> strip_prefix (String a w) (String c s) = None.
Proof.
  intros Hne. simpl. destruct (Ascii.eqb_spec a c); [contradiction | reflexivity].
Qed.

Lemma starts_with_cat w t : starts_with w (w ^^ t) = true.
Proof.
  unfold starts_with. induction w as [|a w IH]; simpl; [reflexivity |].
  rewrite Ascii.eqb_refl. exact IH.
Qed.

(** Stripping *)

Lemma lstrip_by_head p s :
  lstrip_by p s = EmptyString
  \/ exists c t, lstrip_by p s = String c t /\ p c = false.
Proof.
  induction s as [|c s IH]; simpl; [left; reflexivity |].
  destruct (p c) eqn:Hc; [exact IH | right; eauto].
Qed.

Lemma rstrip_by_head p c t :
  p c = false -> exists t', rstrip_by p (String c t) = String c t'.
Proof.
  intros Hc. simpl. destruct (rstrip_by p t); [rewrite Hc|]; eauto.
Qed.

Lemma strip_by_head p s :
  strip_by p s = EmptyString
  \/ exists c t, strip_by p s = String c t /\ p c = false.
Proof.
  unfold strip_by.
  destruct (lstrip_by_head p s) as [-> | (c & t & -> & Hc)];
    [left; reflexivity | right].
  destruct (rstrip_by_head p c t Hc) as [t' ->]. eauto.
Qed.

Lemma len_lstrip_by p s : len (lstrip_by p s) <= len s.
Proof.
  induction s as [|c s IH]; simpl; [lia |].
  destruct (p c); simpl; lia.
Qed.

Lemma len_rstrip_by p s : len (rstrip_by p s) <= len s.
Proof.
  induction s as [|c s IH]; simpl; [lia |].
  destruct (rstrip_by p s); [destruct (p c)|]; simpl in *; lia.
Qed.

Lemma len_strip_by p s : len (strip_by p s) <= len s.
Proof.
  unfold strip_by. pose proof (len_rstrip_by p (lstrip_by p s)).
  pose proof (len_lstrip_by p s). lia.
Qed.


(** ** Facts about the matcher *)

Lemma rmatch_seq {A : Type} a b s g (k : string -> captures -> option A) :
  rmatch (Seq a b) s g k = rmatch a s g (fun t g' => rmatch b t g' k).
Proof. reflexivity. Qed.

Lemma rmatch_lit {A : Type} w s g (k : string -> captures -> option A) :
  rmatch (Lit w) s g k
  = match strip_prefix w s with Some t => k t g | None => None end.
Proof. reflexivity. Qed.

Lemma rmatch_chars {A : Type} p c t g (k : string -> captures -> option A) :
  rmatch (Chars p) (String c t) g k = if p c then k t g else None.
Proof. reflexivity. Qed.

(** The continuation is only ever handed what is left of the string. *)
Lemma rmatch_len {A : Type} r : forall s g (k : string -> captures -> option A) x,
  rmatch r s g k = Some x ->
  exists t g', len t <= len s /\ k t g' = Some x.
Proof.
  induction r as [p|w| |a IHa b IHb|a IHa b IHb|a IHa|a IHa|i a IHa];
    intros s g k x H; simpl in H.
  - destruct s as [|c t]; [discriminate|]. destruct (p c); [|discriminate].
    exists t, g. simpl. split; [lia | exact H].
  - destruct (strip_prefix w s) as [t|] eqn:Hw; [|discriminate].
    apply strip_prefix_cat in Hw. subst s. exists t, g.
    rewrite len_cat. split; [lia | exact H].
  - destruct (at_end s); [|discriminate]. exists s, g. split; [lia | exact H].
  - apply IHa in H as (t & g' & Hlen & H).
    apply IHb in H as (t' & g'' & Hlen' & H).
    exists t', g''. split; [lia | exact H].
  - destruct (rmatch a s g k) eqn:Ha.
    + injection H as ->. apply IHa in Ha. exact Ha.
    + apply IHb in H. exact H.
  - destruct (rmatch a s g k) eqn:Ha.
    + injection H as ->. apply IHa in Ha. exact Ha.
    + exists s, g. split; [lia | exact H].
  - revert H. generalize (len s) at 1 as n. intros n. revert s g.
    induction n as [|n IHn]; intros s g H; simpl in H.
    + exists s, g. split; [lia | exact H].
    + destruct (rmatch a s g _) eqn:Ha.
      * injection H as ->. apply IHa in Ha as (t & g' & Hlen & Ha).
        destruct (len t <? len s) eqn:Hlt; [|discriminate].
        apply IHn in Ha as (t' & g'' & Hlen' & Ha).
        exists t', g''. split; [lia | exact Ha].
      * exists s, g. split; [lia | exact H].
  - apply IHa in H as (t & g' & Hlen & H). eauto.
Qed.

(** A match that one continuation accepts is not lost under a
    continuation that accepts at least as much. *)
Lemma rmatch_mono {A B : Type} r : forall s g
    (k1 : string -> captures -> option A) (k2 : string -> captures -> option B),
  (forall t g' x, k1 t g' = Some x -> exists y, k2 t g' = Some y) ->
  forall x, rmatch r s g k1 = Some x -> exists y, rmatch r s g k2 = Some y.
Proof.
  induction r as [p|w| |a IHa b IHb|a IHa b IHb|a IHa|a IHa|i a IHa];
    intros s g k1 k2 Hk x H; simpl in *.
  - destruct s as [|c t]; [discriminate|]. destruct (p c); [eauto | discriminate].
  - destruct (strip_prefix w s); [eauto | discriminate].
  - destruct (at_end s); [eauto | discriminate].
  - revert H. apply IHa. intros t g'. apply IHb, Hk.
  - destruct (rmatch a s g k1) eqn:Ha1.
    + destruct (IHa s g k1 k2 Hk _ Ha1) as [y ->]. eauto.
    + destruct (rmatch a s g k2); [eauto |]. revert H. apply IHb, Hk.
  - destruct (rmatch a s g k1) eqn:Ha1.
    + destruct (IHa s g k1 k2 Hk _ Ha1) as [y ->]. eauto.
    + destruct (rmatch a s g k2); eauto.
  - revert x H. generalize (len s) as n. intros n. revert s g.
    induction n as [|n IHn]; intros s g x H; simpl in *.
    + eauto.
    + match type of H with
      | match ?m with _ => _ end = _ => destruct m eqn:Ha1
      end.
      * eapply IHa in Ha1 as [y ->]; [eauto |].
        intros t g' x'. simpl.
        destruct (len t <? len s); [apply IHn | discriminate].
      * match goal with
        | |- exists _, match ?m with _ => _ end = _ => destruct m
        end; [eauto | exact (Hk _ _ _ H)].
  - revert H. apply IHa. intros t g'. apply Hk.
Qed.

Lemma match_here_len r s n g : match_here r s = Some (n, g) -> n <= len s.
Proof.
  unfold match_here. intros H.
  apply rmatch_len in H as (t & g' & Hlen & H). injection H as <- _. lia.
Qed.

(** What [search] returns is a match, at the first place that has one. *)
Lemma search_from_some r s i a b :
  search_from r s i = Some (a, b) ->
  exists p g,
    a = i + p /\ p <= len s /\ a <= b /\ b - a <= len s - p
    /\ match_here r (drop p s) = Some (b - a, g).
Proof.
  revert i. induction s as [|c s IH]; intros i H; simpl in H.
  - destruct (match_here r "") as [[n g]|] eqn:Hm; [|discriminate].
    injection H as <- <-. exists 0, g. pose proof (match_here_len _ _ _ _ Hm).
    simpl in *. replace (i + n - i) with n by lia.
    repeat split; try lia. exact Hm.
  - destruct (match_here r (String c s)) as [[n g]|] eqn:Hm.
    + injection H as <- <-. exists 0, g.
      pose proof (match_here_len _ _ _ _ Hm).
      replace (i + n - i) with n by lia. simpl in *.
      repeat split; try lia. exact Hm.
    + apply IH in H as (p & g & -> & Hp & Hab & Hn & Hm').
      exists (S p), g. simpl. repeat split; try lia. exact Hm'.
Qed.

Lemma search_from_none r s i :
  search_from r s i = None -> forall p, match_here r (drop p s) = None.
Proof.
  revert i. induction s as [|c s IH]; intros i H p; simpl in H.
  - destruct (match_here r "") as [[n g]|] eqn:Hm; [discriminate|].
    destruct p; exact Hm.
  - destruct (match_here r (String c s)) as [[n g]|] eqn:Hm; [discriminate|].
    destruct p as [|p]; [exact Hm | simpl; exact (IH _ H p)].
Qed.

Lemma search_from_none_intro r s i :
  (forall p, match_here r (drop p s) = None) -> search_from r s i = None.
Proof.
  revert i. induction s as [|c s IH]; intros i H; simpl;
    pose proof (H 0) as H0; simpl in H0; rewrite H0.
  - reflexivity.
  - apply IH. intros p. exact (H (S p)).
Qed.

(** A pattern that starts where another one does and asks for more finds
    nothing where the other finds nothing. *)
Lemma search_none_mono r1 r2 s :
  (forall t n g, match_here r1 t = Some (n, g) ->
                 exists n' g', match_here r2 t = Some (n', g')) ->
  search r2 s = None -> search r1 s = None.
Proof.
  intros Hmono H. apply search_from_none_intro. intros p.
  pose proof (search_from_none _ _ _ H p) as H2.
  destruct (match_here r1 (drop p s)) as [[n g]|] eqn:H1; [|reflexivity].
  destruct (Hmono _ _ _ H1) as (n' & g' & H'). congruence.
Qed.

(** Substitution *)

Lemma sub_go_no_match r repl s :
  (forall p, match_here r (drop p s) = None) -> sub_go r repl s 0 = s.
Proof.
  induction s as [|c s IH]; intros H; simpl; [reflexivity |].
  pose proof (H 0) as H0. simpl in H0. rewrite H0.
  f_equal. apply IH. intros p. exact (H (S p)).
Qed.

Lemma sub_no_match r repl s : search r s = None -> sub r repl s = s.
Proof. intros H. apply sub_go_no_match, (search_from_none _ _ _ H). Qed.

Lemma len_sub_go r repl s skip :
  (forall t n g, match_here r t = Some (n, g) -> len repl <= n) ->
  len (sub_go r repl s skip) <= len s - skip.
Proof.
  intros Hmin. revert skip. induction s as [|c s IH]; intros [|skip]; simpl;
    try lia.
  - destruct (match_here r (String c s)) as [[[|n] g]|] eqn:Hm; simpl.
    + specialize (IH 0). lia.
    + rewrite len_cat. specialize (IH n).
      pose proof (Hmin _ _ _ Hm). pose proof (match_here_len _ _ _ _ Hm).
      simpl in *. lia.
    + specialize (IH 0). lia.
  - apply IH.
Qed.

(** A match at the very start is replaced. *)
Lemma len_sub_head r repl s n g :
  (forall t n g, match_here r t = Some (n, g) -> len repl <= n) ->
  match_here r s = Some (n, g) -> 0 < n ->
  len (sub r repl s) + n <= len s + len repl.
Proof.
  intros Hmin Hm Hn. pose proof (match_here_len _ _ _ _ Hm) as Hlen.
  destruct n as [|n]; [lia |].
  destruct s as [|c s]; [simpl in Hlen; lia |].
  unfold sub. simpl. rewrite Hm, len_cat.
  pose proof (len_sub_go r repl s n Hmin). simpl in Hlen. lia.
Qed.

Lemma len_replace_go old s skip :
  len (replace_go old "" s skip) <= len s - skip.
Proof.
  revert skip. induction s as [|c s IH]; intros [|skip]; simpl; try lia.
  - destruct (starts_with old (String c s)) eqn:Hsw; simpl.
    + specialize (IH (len old - 1)). lia.
    + specialize (IH 0). lia.
  - apply IH.
Qed.

(** ** The doubled-off test, read as a search for two substrings *)

Lemma strip_prefix_app a b t :
  strip_prefix (a ^^ b) t
  = match strip_prefix a t with
    | Some t' => strip_prefix b t'
    | None => None
    end.
Proof.
  revert t. induction a as [|c a IH]; intros t; simpl; [reflexivity |].
  destruct t as [|d t]; [reflexivity |].
  destruct (Ascii.eqb c d); [apply IH | reflexivity].
Qed.

Lemma match_here_doubled_off name t :
  match match_here (re_doubled_off name) t with
  | Some _ => true
  | None => false
  end
  = starts_with (name ^^ " doubled off") t
    || starts_with (name ^^ " was doubled off") t.
Proof.
  unfold starts_with. rewrite !strip_prefix_app.
  unfold match_here, re_doubled_off. cbn [seq].
  rewrite rmatch_seq, rmatch_lit.
  destruct (strip_prefix name t) as [t1|]; [| reflexivity].
  rewrite rmatch_seq, rmatch_lit.
  change " was doubled off" with (" " ^^ "was " ^^ "doubled off").
  change " doubled off" with (" " ^^ "doubled off").
  rewrite !strip_prefix_app.
  destruct (strip_prefix " " t1) as [t2|]; [| reflexivity].
  rewrite !strip_prefix_app.
  rewrite rmatch_seq. cbn [rmatch].
  destruct (strip_prefix "was " t2) as [t3|].
  - destruct (strip_prefix "doubled off" t3);
      destruct (strip_prefix "doubled off" t2); reflexivity.
  - destruct (strip_prefix "doubled off" t2); reflexivity.
Qed.

Lemma doubled_off_named_contains description name :
  doubled_off_named description name = doubled_off_phrase description name.
Proof.
  unfold doubled_off_phrase, doubled_off_named, search. generalize 0 as i.
  induction description as [|c d IH]; intros i; cbn [search_from contains].
  - rewrite !orb_false_r, <- (match_here_doubled_off name "").
    destruct (match_here (re_doubled_off name) "") as [[n g]|]; reflexivity.
  - pose proof (match_here_doubled_off name (String c d)) as H.
    destruct (match_here (re_doubled_off name) (String c d)) as [[n g]|].
    + symmetry in H. apply orb_true_iff in H as [-> | ->];
        rewrite ?orb_true_r; reflexivity.
    + symmetry in H. apply orb_false_elim in H as [-> ->].
      rewrite (IH (S i)). reflexivity.
Qed.

(** ** The play classifier *)

Lemma scan_keywords_app table1 table2 d code :
  scan_keywords (table1 ++ table2) d code
  = scan_keywords table2 d (scan_keywords table1 d code).
Proof.
  revert code. induction table1 as [|[kw c] table1 IH]; intros code; simpl.
  - reflexivity.
  - apply IH.
Qed.

Lemma scan_keywords_no_match table d code :
  Forall (fun e => contains e.1 d = false) table ->
  scan_keywords table d code = code.
Proof.
  intros H. revert code. induction H as [|[kw c] table Hkw _ IH]; intros code.
  - reflexivity.
  - simpl in *. rewrite Hkw. apply IH.
Qed.

(** The entry that matches last decides the scan. *)
Lemma scan_keywords_last table1 keyword this_code table2 d code :
  contains keyword d = true ->
  Forall (fun e => contains e.1 d = false) table2 ->
  scan_keywords (table1 ++ (keyword, this_code) :: table2) d code
  = Some this_code.
Proof.
  intros Hkw Hrest. rewrite scan_keywords_app. simpl. rewrite Hkw.
  apply scan_keywords_no_match, Hrest.
Qed.

Lemma play_codes_truthy :
  Forall (fun e => falsy (Some e.2) = false) PLAY_CODE_ORDERED_DICT.
Proof. repeat constructor. Qed.

Lemma get_play_str_scanned self this_code :
  String.eqb (plate_appearance_summary self) "Fan interference" = false ->
  scan_keywords PLAY_CODE_ORDERED_DICT (primary_clause self) None
  = Some this_code ->
  falsy (Some this_code) = false ->
  get_play_str self = Ok this_code.
Proof.
  intros Hfi Hscan Htruthy. unfold get_play_str.
  rewrite Hfi, Hscan, Htruthy. reflexivity.
Qed.

(** C3.  With a summary label other than "Fan interference", the play
    code is the code of the last entry of the ordered keyword table whose
    keyword occurs in the primary clause, whatever entries match before
    it; for "hits a sacrifice fly to center" it is SF, not F. *)
Theorem play_classifier_last_match_wins (self : args)
    (Hfi : String.eqb (plate_appearance_summary self) "Fan interference"
           = false) :
  (forall table1 keyword this_code table2,
      PLAY_CODE_ORDERED_DICT = table1 ++ (keyword, this_code) :: table2 ->
      contains keyword (primary_clause self) = true ->
      Forall (fun e => contains e.1 (primary_clause self) = false) table2 ->
      get_play_str self = Ok this_code)
  /\ (plate_appearance_description self = "hits a sacrifice fly to center" ->
      contains "fly" (primary_clause self) = true
      /\ get_play_str self = Ok "SF").
Proof.
  split.
  - intros table1 keyword this_code table2 Htable Hkw Hrest.
    apply get_play_str_scanned; [exact Hfi | |].
    + rewrite Htable. apply scan_keywords_last; assumption.
    + pose proof play_codes_truthy as Hall. rewrite Htable in Hall.
      apply Forall_app in Hall as [_ Hall].
      apply Forall_cons in Hall as [Hcode _]. exact Hcode.
  - intros Hdesc.
    assert (Hclause : primary_clause self = "hits a sacrifice fly to center").
    { unfold primary_clause. rewrite Hdesc. vm_compute. reflexivity. }
    split; [rewrite Hclause; vm_compute; reflexivity |].
    apply get_play_str_scanned; [exact Hfi | rewrite Hclause | ];
      vm_compute; reflexivity.
Qed.

Lemma play_classifier_last_match_wins_witness :
  String.eqb
    (plate_appearance_summary
       (appearance angels "hits a sacrifice fly to center" "Sac Fly"))
    "Fan interference" = false
  /\ get_play_str (appearance angels "hits a sacrifice fly to center" "Sac Fly")
     = Ok "SF".
Proof.
  split; [reflexivity |].
  apply (play_classifier_last_match_wins
           (appearance angels "hits a sacrifice fly to center" "Sac Fly")
           eq_refl); reflexivity.
Defined.

(** ** Hit location *)

(** C2.  For "singles to left" under a summary label other than "Fan
    interference" the play code is empty and the defensive chain is "7";
    the hit location is the play code followed by the first character of
    the chain, that is "7". *)
Theorem singles_to_left_hit_location (self : args)
    (Hdesc : plate_appearance_description self = "singles to left")
    (Hfi : String.eqb (plate_appearance_summary self) "Fan interference"
           = false) :
  get_play_str self = Ok ""
  /\ get_throws_str self = Ok ("7", "")
  /\ get_hit_location self = Ok (Some "7").
Proof.
  assert (Hplay : get_play_str self = Ok "").
  { unfold get_play_str, primary_clause. rewrite Hdesc, Hfi.
    vm_compute. reflexivity. }
  assert (Hthrows : get_throws_str self = Ok ("7", "")).
  { unfold get_throws_str. rewrite Hdesc. vm_compute. reflexivity. }
  repeat split; [exact Hplay | exact Hthrows |].
  unfold get_hit_location. rewrite Hplay, Hthrows. vm_compute. reflexivity.
Qed.

Lemma singles_to_left_hit_location_witness :
  plate_appearance_description (appearance angels "singles to left" "Single")
  = "singles to left"
  /\ String.eqb
       (plate_appearance_summary (appearance angels "singles to left" "Single"))
       "Fan interference" = false
  /\ get_hit_location (appearance angels "singles to left" "Single")
     = Ok (Some "7").
Proof.
  split; [reflexivity | split; [reflexivity |]].
  apply (singles_to_left_hit_location
           (appearance angels "singles to left" "Single") eq_refl eq_refl).
Defined.

(** The hit location of "singles to left" is not [None]. *)
Lemma singles_to_left_hit_location_not_none :
  ~ (get_play_str (appearance angels "singles to left" "Single") = Ok ""
     /\ get_throws_str (appearance angels "singles to left" "Single")
        = Ok ("7", "")
     /\ get_hit_location (appearance angels "singles to left" "Single")
        = Ok None).
Proof. vm_compute. intros (_ & _ & H). discriminate H. Qed.

(** ** Suffix stripping *)

(** C5.  The stripper takes " II" out before it looks for " III": of a
    name written with " III" the last "I" stays behind. *)
Theorem strip_suffixes_leaves_third_numeral :
  strip_suffixes "John Smith III" = "John SmithI"
  /\ sub re_II "" "John Smith III" = "John SmithI"
  /\ sub re_III "" "John SmithI" = "John SmithI"
  /\ sub re_III "" "John Smith III" = "John Smith".
Proof. vm_compute. repeat split; reflexivity. Qed.

(** ** Error code *)

(** C6.  A description that has "error" in it without " error by " makes
    [get_error_str] raise [IndexError] (and with it the constructor),
    where no error code is to be reported. *)
Theorem get_error_str_error_without_by (team : Team.t) (summary : string) :
  contains "error by"
    (plate_appearance_description
       (appearance team "Mike Trout reaches on a fielding error." summary))
  = false
  /\ get_error_str
       (appearance team "Mike Trout reaches on a fielding error." summary)
     = Err IndexError
  /\ PlateAppearance.init
       (appearance team "Mike Trout reaches on a fielding error." summary)
     = Err IndexError.
Proof.
  split; [vm_compute; reflexivity |].
  assert (Herr : get_error_str
            (appearance team "Mike Trout reaches on a fielding error." summary)
          = Err IndexError) by (vm_compute; reflexivity).
  split; [exact Herr |].
  unfold PlateAppearance.init. rewrite Herr.
  unfold get_out_runners_list. simpl plate_appearance_description.
  replace (findall2 re_out_runner
             (strip_suffixes "Mike Trout reaches on a fielding error."))
    with (@nil (string * string)) by (vm_compute; reflexivity).
  assert (Hhit : get_hit_location
            (appearance team "Mike Trout reaches on a fielding error." summary)
          = Ok None).
  { unfold get_hit_location, get_play_str, primary_clause.
    simpl plate_appearance_description. simpl plate_appearance_summary.
    destruct (String.eqb summary "Fan interference"); vm_compute; reflexivity. }
  rewrite Hhit. reflexivity.
Qed.

(** ** Runners put out *)

Lemma mapM_app_err {A B : Type} (f : A -> result B) l x l' rs e :
  mapM f l = Ok rs -> f x = Err e -> mapM f (l ++ x :: l') = Err e.
Proof.
  revert rs. induction l as [|y l IH]; intros rs Hl Hx; simpl in *.
  - rewrite Hx. reflexivity.
  - destruct (f y) as [b|e']; simpl in *; [|discriminate].
    destruct (mapM f l) as [bs|e'] eqn:Hbs; simpl in *; [|discriminate].
    rewrite (IH bs eq_refl Hx). reflexivity.
Qed.

Lemma mapM_elem_err {A B : Type} (f : A -> result B) l x e :
  x ∈ l -> f x = Err e -> exists e', mapM f l = Err e'.
Proof.
  intros Hin Hx. induction Hin as [x l|x y l _ IH]; simpl.
  - rewrite Hx. simpl. eauto.
  - destruct (f y) as [b|e']; simpl; [|eauto].
    destruct (IH Hx) as [e' ->]. simpl. eauto.
Qed.

Lemma mapM_Forall2 {A B : Type} (f : A -> result B) (R : A -> B -> Prop) l :
  Forall (fun x => exists y, f x = Ok y /\ R x y) l ->
  exists rs, mapM f l = Ok rs /\ Forall2 R l rs.
Proof.
  induction 1 as [|x l (y & Hy & HR) _ (rs & Hrs & HF)]; simpl.
  - exists []. split; [reflexivity | constructor].
  - rewrite Hy, Hrs. simpl. exists (y :: rs).
    split; [reflexivity | constructor; assumption].
Qed.

Lemma init_out_runners_err self e :
  get_out_runners_list self = Err e -> PlateAppearance.init self = Err e.
Proof. intros H. unfold PlateAppearance.init. rewrite H. reflexivity. Qed.

Lemma out_runner_miss team d name base :
  Team.find_player team (KeyStr name) = Ok None ->
  exists e, out_runner team d (name, base) = Err e.
Proof.
  intros Hmiss. unfold out_runner, Team.getitem. rewrite Hmiss.
  destruct (search _ d); [destruct (dict_getitem _ _)|]; simpl; eauto.
Qed.

Lemma out_runner_miss_named team d name base :
  Team.find_player team (KeyStr name) = Ok None ->
  search (re_doubled_off name) d = None
  \/ is_Some (INCREMENT_BASE_DICT !! base) ->
  out_runner team d (name, base)
  = Err (ValueError (name ^^ " not found in team")).
Proof.
  intros Hmiss Hbase. unfold out_runner, Team.getitem. rewrite Hmiss.
  destruct Hbase as [-> | [b Hb]]; [reflexivity |].
  unfold dict_getitem. rewrite Hb.
  destruct (search _ d); reflexivity.
Qed.

(** C1.  A baserunner-out clause that names a runner the roster does not
    resolve makes the construction of the plate appearance fail: the
    exception leaves [get_out_runners_list] and then [__init__]; when the
    runners matched before him were resolved and his base needs no entry
    the table lacks, it is the [ValueError] of [Team.__getitem__] that
    names him. *)
Theorem roster_miss_aborts_construction (self : args) (name base : string)
    (Hmatch : (name, base)
              ∈ findall2 re_out_runner
                  (strip_suffixes (plate_appearance_description self)))
    (Hmiss : Team.find_player (batting_team self) (KeyStr name) = Ok None) :
  (exists e, get_out_runners_list self = Err e
             /\ PlateAppearance.init self = Err e)
  /\ (forall earlier later rs,
        findall2 re_out_runner
          (strip_suffixes (plate_appearance_description self))
        = earlier ++ (name, base) :: later ->
        mapM (out_runner (batting_team self)
                (strip_suffixes (plate_appearance_description self))) earlier
        = Ok rs ->
        search (re_doubled_off name)
          (strip_suffixes (plate_appearance_description self)) = None
        \/ is_Some (INCREMENT_BASE_DICT !! base) ->
        PlateAppearance.init self
        = Err (ValueError (name ^^ " not found in team"))).
Proof.
  split.
  - destruct (out_runner_miss (batting_team self)
                (strip_suffixes (plate_appearance_description self))
                name base Hmiss) as [e0 He0].
    destruct (mapM_elem_err _ _ _ _ Hmatch He0) as [e He].
    exists e. split; [exact He | apply init_out_runners_err, He].
  - intros earlier later rs Hsplit Hearlier Hbase.
    apply init_out_runners_err. unfold get_out_runners_list.
    rewrite Hsplit. eapply mapM_app_err; [exact Hearlier |].
    apply out_runner_miss_named; assumption.
Qed.

Lemma roster_miss_example_matches :
  findall2 re_out_runner
    (strip_suffixes (plate_appearance_description roster_miss_example))
  = [("Joe Smith", "2nd")].
Proof. vm_compute. reflexivity. Qed.

Lemma roster_miss_aborts_construction_witness :
  ("Joe Smith", "2nd")
  ∈ findall2 re_out_runner
      (strip_suffixes (plate_appearance_description roster_miss_example))
  /\ Team.find_player (batting_team roster_miss_example) (KeyStr "Joe Smith")
     = Ok None
  /\ exists e, PlateAppearance.init roster_miss_example = Err e.
Proof.
  assert (Hmatch : ("Joe Smith", "2nd")
            ∈ findall2 re_out_runner
                (strip_suffixes
                   (plate_appearance_description roster_miss_example))).
  { rewrite roster_miss_example_matches. left. }
  assert (Hmiss : Team.find_player (batting_team roster_miss_example)
                    (KeyStr "Joe Smith") = Ok None).
  { vm_compute. reflexivity. }
  split; [exact Hmatch | split; [exact Hmiss |]].
  destruct (roster_miss_aborts_construction _ _ _ Hmatch Hmiss)
    as [(e & _ & He) _].
  exists e. exact He.
Defined.

(** The construction does not succeed on a roster miss: the runner named
    in the out clause is not on the roster, and [__init__] raises. *)
Lemma roster_miss_is_not_recovered :
  findall2 re_out_runner
    (strip_suffixes (plate_appearance_description roster_miss_example))
  = [("Joe Smith", "2nd")]
  /\ Team.find_player (batting_team roster_miss_example) (KeyStr "Joe Smith")
     = Ok None
  /\ PlateAppearance.init roster_miss_example
     = Err (ValueError "Joe Smith not found in team")
  /\ forall pa, PlateAppearance.init roster_miss_example <> Ok pa.
Proof.
  assert (H : PlateAppearance.init roster_miss_example
              = Err (ValueError "Joe Smith not found in team")).
  { vm_compute. reflexivity. }
  split; [exact roster_miss_example_matches |].
  split; [vm_compute; reflexivity | split; [exact H |]].
  intros pa. rewrite H. discriminate.
Qed.

Lemma increment_base_one_step base :
  base ∈ ["1st"; "2nd"; "3rd"] ->
  exists base', INCREMENT_BASE_DICT !! base = Some base'
                /\ one_step_past base base'.
Proof.
  intros H. repeat (apply elem_of_cons in H as [-> | H]);
    [exists "2nd" | exists "3rd" | exists "home" | by apply elem_of_nil in H];
    (split; [vm_compute; reflexivity | constructor]).
Qed.

Lemma out_runner_resolved team d name base p :
  Team.find_player team (KeyStr name) = Ok (Some p) ->
  out_runner team d (name, base)
  = match search (re_doubled_off name) d with
    | Some _ =>
        match dict_getitem INCREMENT_BASE_DICT base with
        | Ok base' => Ok (p, base')
        | Err e => Err e
        end
    | None => Ok (p, base)
    end.
Proof.
  intros Hp. unfold out_runner, Team.getitem. rewrite Hp.
  destruct (search _ d); [destruct (dict_getitem _ _)|]; reflexivity.
Qed.

(** C9.  When every runner matched resolves on the roster and every
    doubled-off runner's stated base is "1st", "2nd" or "3rd", the list of
    runners put out is built, one entry per match, and the base recorded
    for a runner whose name is followed by " doubled off" (or " was
    doubled off") is one step past the stated base; the others keep the
    stated base. *)
Theorem doubled_off_base_advances (self : args)
    (Hroster :
       Forall (fun m => exists p,
                   Team.find_player (batting_team self) (KeyStr m.1)
                   = Ok (Some p))
         (findall2 re_out_runner
            (strip_suffixes (plate_appearance_description self))))
    (Hbases :
       Forall (fun m =>
                 doubled_off_phrase
                   (strip_suffixes (plate_appearance_description self)) m.1
                 = true ->
                 m.2 ∈ ["1st"; "2nd"; "3rd"])
         (findall2 re_out_runner
            (strip_suffixes (plate_appearance_description self)))) :
  exists rs,
    get_out_runners_list self = Ok rs
    /\ Forall2
         (fun m r =>
            Team.find_player (batting_team self) (KeyStr m.1) = Ok (Some r.1)
            /\ if doubled_off_phrase
                    (strip_suffixes (plate_appearance_description self)) m.1
               then one_step_past m.2 r.2
               else r.2 = m.2)
         (findall2 re_out_runner
            (strip_suffixes (plate_appearance_description self)))
         rs.
Proof.
  unfold get_out_runners_list. apply mapM_Forall2.
  generalize dependent
    (findall2 re_out_runner
       (strip_suffixes (plate_appearance_description self))).
  generalize (strip_suffixes (plate_appearance_description self)) as d.
  intros d l Hroster Hbases.
  induction Hroster as [|[name base] l [p Hp] _ IH]; [constructor |].
  apply Forall_cons in Hbases as [Hbase Hbases].
  constructor; [| exact (IH Hbases)].
  cbn [fst snd] in *.
  rewrite (out_runner_resolved _ d _ base _ Hp).
  fold (doubled_off_phrase d name) in *.
  rewrite <- (doubled_off_named_contains d name) in *.
  unfold doubled_off_named in *.
  destruct (search (re_doubled_off name) d) as [span|].
  - destruct (increment_base_one_step base (Hbase eq_refl))
      as (base' & Hlookup & Hstep).
    unfold dict_getitem. rewrite Hlookup.
    exists (p, base'). repeat split; assumption.
  - exists (p, base). repeat split. exact Hp.
Qed.

Lemma doubled_off_example_matches :
  findall2 re_out_runner
    (strip_suffixes (plate_appearance_description doubled_off_example))
  = [("Joe Smith", "2nd")].
Proof. vm_compute. reflexivity. Qed.

Lemma doubled_off_base_advances_witness :
  exists rs,
    get_out_runners_list doubled_off_example = Ok rs
    /\ Forall2
         (fun m r =>
            Team.find_player (batting_team doubled_off_example) (KeyStr m.1)
            = Ok (Some r.1)
            /\ if doubled_off_phrase
                    (strip_suffixes
                       (plate_appearance_description doubled_off_example)) m.1
               then one_step_past m.2 r.2
               else r.2 = m.2)
         (findall2 re_out_runner
            (strip_suffixes (plate_appearance_description doubled_off_example)))
         rs.
Proof.
  apply (doubled_off_base_advances doubled_off_example);
    rewrite doubled_off_example_matches; (constructor; [| constructor]).
  - exists joe_smith. vm_compute. reflexivity.
  - intros _. cbn [snd]. apply list_elem_of_further, list_elem_of_here.
Defined.

(** The example "doubled off second base, 4-6": the stated base is the
    word "second", which the table of bases does not hold, and the suffix
    pattern wants the base right after the phrase, without a space. *)
Lemma doubled_off_second_base_counterexample :
  findall2 re_out_runner
    (strip_suffixes (plate_appearance_description doubled_off_second_base))
  = [("Joe Smith", "second")]
  /\ doubled_off_phrase
       (strip_suffixes (plate_appearance_description doubled_off_second_base))
       "Joe Smith" = true
  /\ get_out_runners_list doubled_off_second_base = Err (KeyError "second")
  /\ get_defense_suffix "Joe Smith doubled off second base, 4-6" = Ok ""
  /\ ~ (exists p,
           get_out_runners_list doubled_off_second_base = Ok [(p, "3rd")]).
Proof.
  assert (H : get_out_runners_list doubled_off_second_base
              = Err (KeyError "second")) by (vm_compute; reflexivity).
  split; [vm_compute; reflexivity |].
  split; [vm_compute; reflexivity |].
  split; [exact H |].
  split; [vm_compute; reflexivity |].
  intros [p Hp]. rewrite H in Hp. discriminate Hp.
Qed.

Lemma strip_prefix_needs_space w s :
  (forall t, s <> String " " t) -> strip_prefix (String " " w) s = None.
Proof.
  intros Hs. destruct s as [|c t]; [reflexivity |].
  apply strip_prefix_head. intros <-. exact (Hs t eq_refl).
Qed.

Lemma needs_space_lit w : needs_space (Lit (String " " w)).
Proof.
  intros s Hs. unfold match_here. cbn [rmatch].
  rewrite (strip_prefix_needs_space w s Hs). reflexivity.
Qed.

Lemma needs_space_seq w r : needs_space (Seq (Lit (String " " w)) r).
Proof.
  intros s Hs. unfold match_here. cbn [rmatch].
  rewrite (strip_prefix_needs_space w s Hs). reflexivity.
Qed.

Lemma not_space_char c : is_space c = false -> forall t s, String c s <> String " " t.
Proof. intros Hc t s H. injection H as -> _. discriminate Hc. Qed.

Lemma sub_head_keep r repl c t :
  needs_space r -> is_space c = false ->
  sub r repl (String c t) = String c (sub r repl t).
Proof.
  intros Hr Hc. unfold sub. cbn [sub_go].
  rewrite (Hr (String c t) (fun t' => not_space_char c Hc t' t)). reflexivity.
Qed.

Lemma clean_head_strip s : clean_head (strip s).
Proof. apply strip_by_head. Qed.

Lemma clean_head_sub r repl s :
  needs_space r -> clean_head s -> clean_head (sub r repl s).
Proof.
  intros Hr [-> | (c & t & -> & Hc)]; [left; reflexivity | right].
  rewrite (sub_head_keep r repl c t Hr Hc). eauto.
Qed.

Lemma clean_head_strip_suffixes s : clean_head (strip_suffixes s).
Proof.
  unfold strip_suffixes.
  repeat (apply clean_head_sub; [apply needs_space_lit |]).
  unfold strip_this_suffix at 1. apply clean_head_strip.
Qed.

Lemma clean_head_reduce_name s : clean_head (Team.reduce_name s).
Proof. unfold Team.reduce_name. apply clean_head_strip_suffixes. Qed.

Lemma words_head c t :
  is_space c = false -> exists w ws, words (String c t) = w :: ws.
Proof.
  intros Hc. unfold words. cbn [words_go]. destruct (words_go t) as [w ws].
  rewrite Hc. eauto.
Qed.

Lemma list_last_cons {A : Type} (x : A) l : exists y, list_last (x :: l) = Ok y.
Proof.
  unfold list_last. destruct (last (x :: l)) as [y|] eqn:H; [eauto |].
  apply last_None in H. discriminate H.
Qed.

(** C10.  What [find_player] does for each type of key: an [int] is
    looked up in the id index and never raises; a [str] that is a
    registered full name returns that player; any other [str] is reduced
    (blanks, periods and trailing suffixes off) and, when something is
    left, its initial and last word are looked up in the fuzzy index
    without raising, while a [str] of which nothing is left raises
    [IndexError]; a key of another type raises the [ValueError] that
    shows the key. *)
Theorem find_player_by_key_type (self : Team.t) (key : player_key) :
  match key with
  | KeyInt player_id =>
      Team.find_player self key = Ok (Team.player_id_dict self !! player_id)
  | KeyStr player_name =>
      match Team.player_name_dict self !! player_name with
      | Some player => Team.find_player self key = Ok (Some player)
      | None =>
          match Team.reduce_name player_name with
          | EmptyString => Team.find_player self key = Err IndexError
          | String initial _ =>
              exists last,
                list_last (words (Team.reduce_name player_name)) = Ok last
                /\ Team.find_player self key
                   = Ok (Team.player_last_name_dict self
                           !! String initial last)
          end
      end
  | KeyOther shown =>
      Team.find_player self key
      = Err (ValueError
               ("Player key: " ^^ shown ^^ " must be either int or str"))
  end.
Proof.
  destruct key as [player_id|player_name|shown]; [reflexivity | | reflexivity].
  unfold Team.find_player.
  destruct (Team.player_name_dict self !! player_name); [reflexivity |].
  destruct (clean_head_reduce_name player_name) as [-> | (c & t & -> & Hc)];
    [reflexivity |].
  destruct (words_head c t Hc) as (w & ws & ->).
  destruct (list_last_cons w ws) as [last Hlast].
  exists last. split; [exact Hlast |].
  cbn [first mbind result_bind]. rewrite Hlast. reflexivity.
Qed.

(** A blank key is a non-empty [str] for which [find_player] raises. *)
Lemma find_player_blank_key_raises :
  " " <> ""
  /\ Team.find_player empty_roster (KeyStr " ") = Err IndexError
  /\ ~ (exists r, Team.find_player empty_roster (KeyStr " ") = Ok r).
Proof.
  split; [discriminate |].
  assert (H : Team.find_player empty_roster (KeyStr " ") = Err IndexError)
    by (vm_compute; reflexivity).
  split; [exact H |]. intros [r Hr]. rewrite H in Hr. discriminate Hr.
Qed.

(** ** Round trip through the roster index *)

Lemma unmatched_search r s : unmatched r s -> search r s = None.
Proof. apply search_from_none_intro. Qed.

Lemma unmatched_sub r repl s : unmatched r s -> sub r repl s = s.
Proof. apply sub_go_no_match. Qed.

Lemma none_of_impl (p q : ascii -> bool) s :
  (forall c, q c = true -> p c = true) ->
  none_of p s = true -> none_of q s = true.
Proof.
  intros Hpq. induction s as [|c s IH]; simpl; [reflexivity |].
  intros [Hc Hs]%andb_prop. rewrite (IH Hs), andb_true_r.
  destruct (q c) eqn:Hq; [|reflexivity].
  rewrite (Hpq c Hq) in Hc. discriminate Hc.
Qed.

Lemma none_of_drop p n s : none_of p s = true -> none_of p (drop n s) = true.
Proof.
  revert s. induction n as [|n IH]; intros [|c s] H; simpl in *; try assumption.
  apply IH. apply andb_prop in H as [_ H]. exact H.
Qed.

Lemma rstrip_by_none_of p s : none_of p s = true -> rstrip_by p s = s.
Proof.
  induction s as [|c s IH]; simpl; [reflexivity |].
  intros [Hc Hs]%andb_prop. rewrite (IH Hs).
  destruct s; [destruct (p c); [discriminate | reflexivity] | reflexivity].
Qed.

Lemma rstrip_by_cons p c s :
  rstrip_by p s = s -> s <> "" -> rstrip_by p (String c s) = String c s.
Proof. intros Hs Hne. simpl. rewrite Hs. destruct s; [contradiction | reflexivity]. Qed.

Lemma words_go_none_of s : none_of is_space s = true -> words_go s = (s, []).
Proof.
  induction s as [|c s IH]; simpl; [reflexivity |].
  intros [Hc Hs]%andb_prop. rewrite (IH Hs).
  destruct (is_space c); [discriminate | reflexivity].
Qed.

Lemma starts_with_char c d s :
  starts_with (String c "") (String d s) = Ascii.eqb c d.
Proof. unfold starts_with. simpl. destruct (Ascii.eqb c d); reflexivity. Qed.

Section FuzzyQuery.

Variables (initial : ascii) (short : string).
Hypothesis Hinitial : blank_or_dot initial = false.
Hypothesis Hfree : suffix_free short = true.

Lemma suffix_free_chars : none_of blank_or_dot short = true.
Proof.
  unfold suffix_free in Hfree. repeat apply andb_prop in Hfree as [Hfree _].
  exact Hfree.
Qed.

Lemma suffix_free_no_space : none_of is_space short = true.
Proof.
  apply (none_of_impl blank_or_dot); [| exact suffix_free_chars].
  intros c Hc. unfold blank_or_dot. rewrite Hc. reflexivity.
Qed.

Lemma mem_blank_dot c : mem c " ." = true -> blank_or_dot c = true.
Proof.
  unfold mem, blank_or_dot. cbn [contains]. rewrite !starts_with_char.
  destruct (Ascii.eqb_spec c " ") as [->|]; [reflexivity |].
  destruct (Ascii.eqb_spec c ".") as [->|]; [reflexivity |].
  discriminate.
Qed.

Lemma suffix_free_nonempty : short <> "".
Proof.
  intros ->. unfold suffix_free in Hfree. cbn in Hfree. discriminate Hfree.
Qed.

Lemma initial_not_space : is_space initial = false.
Proof.
  unfold blank_or_dot in Hinitial.
  apply orb_false_elim in Hinitial as [H _]. exact H.
Qed.

(** The query survives every stripping step of [find_player]. *)

Lemma strip_by_fuzzy_query p :
  (forall c, p c = true -> blank_or_dot c = true) ->
  strip_by p (fuzzy_query initial short) = fuzzy_query initial short.
Proof.
  intros Hp. unfold strip_by, fuzzy_query. cbn [lstrip_by cat].
  assert (Hi : p initial = false).
  { destruct (p initial) eqn:E; [|reflexivity].
    apply Hp in E. congruence. }
  rewrite Hi.
  assert (Hs : rstrip_by p short = short).
  { apply rstrip_by_none_of, (none_of_impl blank_or_dot);
      [exact Hp | exact suffix_free_chars]. }
  apply rstrip_by_cons; [| discriminate].
  apply rstrip_by_cons; [exact Hs | exact suffix_free_nonempty].
Qed.

Lemma unmatched_fuzzy_query r :
  needs_space r ->
  match_here r (String " " short) = None ->
  unmatched r (fuzzy_query initial short).
Proof.
  intros Hr Hshort [|[|p]]; unfold fuzzy_query; cbn [drop cat].
  - apply Hr. intros t. apply (not_space_char _ initial_not_space).
  - exact Hshort.
  - apply Hr. intros t Ht.
    pose proof (none_of_drop _ p _ suffix_free_no_space) as Hd.
    rewrite Ht in Hd. discriminate Hd.
Qed.

End FuzzyQuery.

Lemma match_here_lit_none w short :
  (forall t, short <> w ^^ t) ->
  match_here (Lit (String " " w)) (String " " short) = None.
Proof.
  intros Hw. unfold match_here. cbn [rmatch].
  destruct (strip_prefix (String " " w) (String " " short)) as [t|] eqn:E;
    [| reflexivity].
  apply strip_prefix_cat in E. injection E as E. destruct (Hw t E).
Qed.

Lemma match_here_lit_seq_none w r short :
  (forall t, short <> w ^^ t) ->
  match_here (Seq (Lit (String " " w)) r) (String " " short) = None.
Proof.
  intros Hw. unfold match_here. cbn [rmatch].
  destruct (strip_prefix (String " " w) (String " " short)) as [t|] eqn:E;
    [| reflexivity].
  apply strip_prefix_cat in E. injection E as E. destruct (Hw t E).
Qed.

Lemma match_here_lit_end_none w short :
  short <> w -> short <> w ^^ String "010" "" ->
  match_here (Seq (Lit (String " " w)) Eos) (String " " short) = None.
Proof.
  intros Hw Hnl. unfold match_here. cbn [rmatch].
  destruct (strip_prefix (String " " w) (String " " short)) as [t|] eqn:E;
    [| reflexivity].
  apply strip_prefix_cat in E. injection E as E.
  destruct t as [|c [|c' t]]; cbn [at_end]; try reflexivity.
  - destruct Hw. rewrite E. clear. induction w; simpl; congruence.
  - destruct (Ascii.eqb_spec c "010") as [->|]; [| reflexivity].
    destruct (Hnl E).
Qed.

Lemma suffix_free_unmatched short :
  suffix_free short = true ->
  match_here re_Jr_end (String " " short) = None
  /\ match_here re_Sr_end (String " " short) = None
  /\ match_here re_II_end (String " " short) = None
  /\ match_here re_III_end (String " " short) = None
  /\ match_here re_IV_end (String " " short) = None
  /\ match_here re_Jr_dot_cap (String " " short) = None
  /\ match_here re_Jr_dot (String " " short) = None
  /\ match_here re_Sr_dot_cap (String " " short) = None
  /\ match_here re_Sr_dot (String " " short) = None
  /\ match_here re_II (String " " short) = None
  /\ match_here re_III (String " " short) = None
  /\ match_here re_IV (String " " short) = None
  /\ match_here re_St_dot (String " " short) = None.
Proof.
  intros Hfree.
  assert (Hnot : forall w, suffix_free w = false -> short <> w).
  { intros w Hw ->. rewrite Hw in Hfree. discriminate Hfree. }
  assert (Hdot : forall w t,
             none_of blank_or_dot w = false ->
             short <> w ^^ t).
  { intros w t Hw ->. pose proof (suffix_free_chars _ Hfree) as Hc.
    revert Hw Hc. clear. induction w as [|c w IH]; simpl; [discriminate |].
    destruct (blank_or_dot c); simpl; [discriminate | exact IH]. }
  assert (Hpre : forall w t, starts_with w short = false -> short <> w ^^ t).
  { intros w t Hw ->. rewrite starts_with_cat in Hw. discriminate Hw. }
  assert (HII : starts_with "II" short = false).
  { unfold suffix_free in Hfree.
    destruct (starts_with "II" short); [| reflexivity].
    rewrite !andb_false_r in Hfree. discriminate Hfree. }
  assert (HIV : starts_with "IV" short = false).
  { unfold suffix_free in Hfree.
    destruct (starts_with "IV" short); [| reflexivity].
    rewrite !andb_false_r in Hfree. discriminate Hfree. }
  repeat split.
  - apply match_here_lit_end_none; apply Hnot; reflexivity.
  - apply match_here_lit_end_none; apply Hnot; reflexivity.
  - apply match_here_lit_end_none; apply Hnot; reflexivity.
  - apply match_here_lit_end_none; apply Hnot; reflexivity.
  - apply match_here_lit_end_none; apply Hnot; reflexivity.
  - apply match_here_lit_seq_none. intros t. apply Hdot. reflexivity.
  - apply match_here_lit_none. intros t. apply Hdot. reflexivity.
  - apply match_here_lit_seq_none. intros t. apply Hdot. reflexivity.
  - apply match_here_lit_none. intros t. apply Hdot. reflexivity.
  - apply match_here_lit_none. intros t. apply Hpre, HII.
  - apply match_here_lit_none. intros t.
    change ("III" ^^ t) with ("II" ^^ "I" ^^ t). apply Hpre, HII.
  - apply match_here_lit_none. intros t. apply Hpre, HIV.
  - apply match_here_lit_none. intros t. apply Hdot. reflexivity.
Qed.

Lemma strip_this_suffix_unmatched pattern suffix s :
  unmatched pattern s -> unmatched suffix s -> strip s = s ->
  strip_this_suffix pattern suffix s = s.
Proof.
  intros Hp Hs Hstrip. unfold strip_this_suffix.
  assert (Hloop : forall fuel, strip_this_suffix_loop fuel pattern suffix s = s).
  { intros [|fuel]; simpl; [reflexivity |].
    rewrite (unmatched_search _ _ Hp). reflexivity. }
  rewrite Hloop, (unmatched_sub _ _ _ Hs). exact Hstrip.
Qed.

Lemma reduce_name_fuzzy_query initial short :
  blank_or_dot initial = false ->
  suffix_free short = true ->
  Team.reduce_name (fuzzy_query initial short) = fuzzy_query initial short.
Proof.
  intros Hinitial Hfree.
  destruct (suffix_free_unmatched short Hfree)
    as (H1 & H2 & H3 & H4 & H5 & H6 & H7 & H8 & H9 & H10 & H11 & H12 & H13).
  assert (Hstrip : strip (fuzzy_query initial short) = fuzzy_query initial short).
  { apply strip_by_fuzzy_query; [assumption.. |].
    intros c Hc. unfold blank_or_dot. rewrite Hc. reflexivity. }
  assert (Hchars : strip_chars " ." (fuzzy_query initial short)
                   = fuzzy_query initial short).
  { apply strip_by_fuzzy_query; [assumption.. |]. apply mem_blank_dot. }
  assert (Hun : forall r, needs_space r ->
                  match_here r (String " " short) = None ->
                  unmatched r (fuzzy_query initial short)).
  { intros r. apply unmatched_fuzzy_query; assumption. }
  unfold Team.reduce_name.
  rewrite Hchars, (unmatched_sub re_Jr_end);
    [| apply Hun; [apply needs_space_seq | exact H1]].
  rewrite Hchars, (unmatched_sub re_Sr_end);
    [| apply Hun; [apply needs_space_seq | exact H2]].
  rewrite Hstrip, (unmatched_sub re_II_end);
    [| apply Hun; [apply needs_space_seq | exact H3]].
  rewrite Hstrip, (unmatched_sub re_III_end);
    [| apply Hun; [apply needs_space_seq | exact H4]].
  rewrite Hstrip, (unmatched_sub re_IV_end);
    [| apply Hun; [apply needs_space_seq | exact H5]].
  rewrite Hstrip. unfold strip_suffixes.
  rewrite (strip_this_suffix_unmatched re_Jr_dot_cap re_Jr_dot);
    [| apply Hun; [apply needs_space_seq | exact H6]
     | apply Hun; [apply needs_space_lit | exact H7]
     | exact Hstrip].
  rewrite (strip_this_suffix_unmatched re_Sr_dot_cap re_Sr_dot);
    [| apply Hun; [apply needs_space_seq | exact H8]
     | apply Hun; [apply needs_space_lit | exact H9]
     | exact Hstrip].
  rewrite (unmatched_sub re_II);
    [| apply Hun; [apply needs_space_lit | exact H10]].
  rewrite (unmatched_sub re_III);
    [| apply Hun; [apply needs_space_lit | exact H11]].
  rewrite (unmatched_sub re_IV);
    [| apply Hun; [apply needs_space_lit | exact H12]].
  apply unmatched_sub, Hun; [apply needs_space_lit | exact H13].
Qed.

Lemma words_fuzzy_query initial short :
  blank_or_dot initial = false ->
  suffix_free short = true ->
  words (fuzzy_query initial short) = [String initial ""; short].
Proof.
  intros Hinitial Hfree. unfold words, fuzzy_query. cbn [words_go cat].
  rewrite (words_go_none_of short (suffix_free_no_space _ Hfree)).
  rewrite (initial_not_space _ Hinitial).
  change (is_space " ") with true. cbn iota.
  destruct short; [destruct (suffix_free_nonempty _ Hfree eq_refl) | reflexivity].
Qed.

(** ** The loops of the name normalizer *)

(** A starred expression never refuses by itself. *)
Lemma rmatch_star_total {A : Type} a s g (k : string -> captures -> option A) :
  (forall t g', exists x, k t g' = Some x) ->
  exists x, rmatch (Star a) s g k = Some x.
Proof.
  intros Hk. cbn [rmatch]. destruct (len s) as [|n]; cbn [star_rounds].
  - apply Hk.
  - match goal with
    | |- exists _, match ?m with _ => _ end = _ => destruct m
    end; [eauto | apply Hk].
Qed.

(** A match of an initial, a period and white space: its first three
    characters. *)
Lemma initial_dot_space_shape r s n g :
  match_here (Seq upper (Seq (Lit ".") (Seq (Plus space) r))) s = Some (n, g) ->
  exists u sp rest,
    s = String u (String "." (String sp rest))
    /\ is_upper u = true /\ is_space sp = true /\ 3 <= n.
Proof.
  unfold match_here, upper, space, Plus. intros H.
  destruct s as [|u [|d [|sp rest]]]; cbn [rmatch strip_prefix] in H;
    try discriminate H.
  - destruct (is_upper u); discriminate H.
  - destruct (is_upper u); [| discriminate H].
    destruct (Ascii.eqb "." d); discriminate H.
  - destruct (is_upper u) eqn:Hu; [| discriminate H].
    destruct (Ascii.eqb_spec "." d) as [<-|]; [| discriminate H].
    destruct (is_space sp) eqn:Hsp; [| discriminate H].
    exists u, sp, rest. repeat split; try reflexivity; try assumption.
    change (rmatch (Seq (Star (Chars is_space)) r) rest []
              (fun t g => Some (len (String u (String "." (String sp rest)))
                                - len t, g)) = Some (n, g)) in H.
    apply rmatch_len in H as (t & g' & Hlen & H). injection H as <- _.
    simpl. lia.
Qed.

Lemma is_upper_not_dot u : is_upper u = true -> Ascii.eqb "." u = false.
Proof.
  intros Hu. destruct (Ascii.eqb_spec "." u) as [<-|]; [| reflexivity].
  discriminate Hu.
Qed.

(** The second loop of [fix_initials] takes a period out at each round. *)
Lemma len_replace_dot_initial u rest :
  is_upper u = true ->
  len (replace "." "" (String u (String "." rest))) <= S (len rest).
Proof.
  intros Hu. unfold replace. cbn [replace_go].
  rewrite starts_with_char, (is_upper_not_dot u Hu).
  rewrite starts_with_char. cbn [Ascii.eqb Bool.eqb cat len Nat.sub].
  change (Ascii.eqb "." ".") with true. cbn iota. cbn [cat len].
  pose proof (len_replace_go "." rest 0). simpl in *. lia.
Qed.

Lemma take_cons n c s : take (S n) (String c s) = String c (take n s).
Proof. reflexivity. Qed.

Lemma fix_initials_round2_shrinks s i j :
  search re_initial_cap s = Some (i, j) ->
  len (strip (take i s
              ^^ replace "." "" (take (j - i) (drop i s))
              ^^ drop j s)) < len s.
Proof.
  intros H. apply search_from_some in H as (p & g & Hi & Hp & Hij & Hn & Hm).
  simpl in Hi. subst p.
  destruct (initial_dot_space_shape _ _ _ _ Hm)
    as (u & sp & rest & Hs & Hu & Hsp & H3).
  rewrite Hs in *.
  destruct (j - i) as [|[|n]] eqn:Hji; [lia | lia |].
  rewrite !take_cons.
  pose proof (len_replace_dot_initial u (take n (String sp rest)) Hu) as Hr.
  rewrite len_take in Hr.
  eapply Nat.le_lt_trans; [apply len_strip_by |].
  rewrite !len_cat, len_take, len_drop.
  assert (len (drop i s) = len s - i) by apply len_drop.
  rewrite Hs in H. simpl in H. simpl in Hn. lia.
Qed.

Lemma search_empty_none r : match_here r "" = None -> search r "" = None.
Proof. intros H. unfold search. simpl. rewrite H. reflexivity. Qed.

(** With one round of fuel for each character, the second loop stops
    because nothing matches any more. *)
Lemma fix_initials_loop2_exit fuel : forall s,
  len s <= fuel -> search re_initial_cap (fix_initials_loop2 fuel s) = None.
Proof.
  induction fuel as [|fuel IH]; intros s Hlen.
  - destruct s; [| simpl in Hlen; lia]. reflexivity.
  - cbn [fix_initials_loop2].
    destruct (search re_initial_cap s) as [[i j]|] eqn:E; [| exact E].
    apply IH. pose proof (fix_initials_round2_shrinks s i j E). lia.
Qed.

Lemma fix_initials_loop2_done fuel s :
  search re_initial_cap s = None -> fix_initials_loop2 fuel s = s.
Proof. intros H. destruct fuel; simpl; [| rewrite H]; reflexivity. Qed.

Lemma fix_initials_loop1_done fuel s :
  search re_two_initials s = None -> fix_initials_loop1 fuel s = s.
Proof. intros H. destruct fuel; simpl; [| rewrite H]; reflexivity. Qed.

(** Where two initials match, one initial and a capital match. *)
Lemma two_initials_is_initial_cap t n g :
  match_here re_two_initials t = Some (n, g) ->
  exists n' g', match_here re_initial_cap t = Some (n', g').
Proof.
  intros H.
  enough (exists y, match_here re_initial_cap t = Some y) as [[n' g'] Hy]
    by eauto.
  revert H. unfold match_here, re_two_initials, re_initial_cap.
  cbn [seq]. rewrite !rmatch_seq.
  apply rmatch_mono. intros t1 g1 x1. rewrite !rmatch_seq.
  apply rmatch_mono. intros t2 g2 x2. rewrite !rmatch_seq.
  apply rmatch_mono. intros t3 g3 x3. rewrite !rmatch_seq.
  apply rmatch_mono. intros t4 g4 x4 _. eauto.
Qed.

(** C8.  Collapsing initials is idempotent: what [fix_initials] returns
    holds no initial followed by a capital any more, so a second pass
    finds nothing to do. *)
Theorem fix_initials_idempotent (s : string) :
  search re_initial_cap (fix_initials s) = None
  /\ fix_initials (fix_initials s) = fix_initials s.
Proof.
  assert (Hnone : search re_initial_cap (fix_initials s) = None).
  { unfold fix_initials. apply fix_initials_loop2_exit. lia. }
  split; [exact Hnone |].
  unfold fix_initials at 1.
  rewrite fix_initials_loop1_done;
    [| exact (search_none_mono _ _ _ two_initials_is_initial_cap Hnone)].
  apply fix_initials_loop2_done, Hnone.
Qed.

(** Stripping suffixes, and with it the whole normalizer, is not
    idempotent. *)
Lemma normalize_not_idempotent :
  normalize "A St. St. B" = "A St St. B"
  /\ normalize (normalize "A St. St. B") = "A St St B"
  /\ normalize (normalize "A St. St. B") <> normalize "A St. St. B"
  /\ strip_suffixes (fix_initials (strip_suffixes (fix_initials "A St. St. B")))
     <> strip_suffixes (fix_initials "A St. St. B").
Proof. vm_compute. repeat split; discriminate. Qed.

(** The first loop: each round takes two periods and their white space
    out and puts one space in. *)
Lemma fix_initials_round1_shrinks s i j :
  search re_two_initials s = Some (i, j) ->
  len (take i s
       ^^ sub re_dot_spaces "" (take (j - i) (drop i s))
       ^^ " " ^^ drop j s) < len s.
Proof.
  intros H. apply search_from_some in H as (p & g & Hi & Hp & Hij & Hn & Hm).
  simpl in Hi. subst p.
  destruct (initial_dot_space_shape _ _ _ _ Hm)
    as (u & sp & rest & Hs & Hu & Hsp & H3).
  assert (Hlen : len (drop i s) = len s - i) by apply len_drop.
  rewrite Hs in *.
  destruct (j - i) as [|[|[|n]]] eqn:Hji; [lia | lia | lia |].
  rewrite !take_cons.
  set (mid := take n rest).
  assert (Hhead : match_here re_dot_spaces
                    (String u (String "." (String sp mid))) = None).
  { unfold match_here, re_dot_spaces. cbn [seq rmatch strip_prefix].
    rewrite (is_upper_not_dot u Hu). reflexivity. }
  assert (Hdot : exists m g',
             match_here re_dot_spaces (String "." (String sp mid))
             = Some (S (S m), g')).
  { unfold match_here, re_dot_spaces, Plus, space. cbn [seq].
    rewrite rmatch_seq, rmatch_lit. cbn [strip_prefix].
    change (Ascii.eqb "." ".") with true. cbn iota.
    rewrite rmatch_seq, rmatch_chars, Hsp.
    destruct (rmatch_star_total (Chars is_space) mid []
                (fun t g0 => Some (len (String "." (String sp mid)) - len t, g0)))
      as [[m g'] Hstar]; [eauto |].
    rewrite Hstar.
    apply rmatch_len in Hstar as (t & g'' & Ht & Hstar).
    injection Hstar as <- _. simpl.
    exists (len mid - len t), g'. f_equal. f_equal. lia. }
  destruct Hdot as (m & g' & Hdot).
  assert (Hsub : len (sub re_dot_spaces ""
                        (String u (String "." (String sp mid))))
                 <= S (len mid)).
  { unfold sub. cbn [sub_go]. rewrite Hhead.
    pose proof (len_sub_head re_dot_spaces "" _ _ _
                  (fun _ _ _ _ => Nat.le_0_l _) Hdot) as Hl.
    unfold sub in Hl. simpl in *. lia. }
  rewrite !len_cat, len_take, len_drop.
  assert (Hmid : len mid <= n) by (unfold mid; rewrite len_take; lia).
  simpl in *. lia.
Qed.

Lemma fix_initials_loop1_exit fuel : forall s,
  len s <= fuel -> search re_two_initials (fix_initials_loop1 fuel s) = None.
Proof.
  induction fuel as [|fuel IH]; intros s Hlen.
  - destruct s; [| simpl in Hlen; lia]. reflexivity.
  - cbn [fix_initials_loop1].
    destruct (search re_two_initials s) as [[i j]|] eqn:E; [| exact E].
    apply IH. pose proof (fix_initials_round1_shrinks s i j E). lia.
Qed.

(** The loop of [strip_this_suffix], for a pattern that is the suffix
    followed by something: each round turns the suffix into a period. *)
Lemma match_here_lit w s n g :
  match_here (Lit w) s = Some (n, g) -> n = len w /\ exists t, s = w ^^ t.
Proof.
  unfold match_here. cbn [rmatch]. intros H.
  destruct (strip_prefix w s) as [t|] eqn:E; [| discriminate H].
  apply strip_prefix_cat in E. subst s. injection H as <- _.
  rewrite len_cat. split; [lia | eauto].
Qed.

Lemma strip_prefix_self w t : strip_prefix w (w ^^ t) = Some t.
Proof.
  induction w as [|a w IH]; simpl; [reflexivity |].
  rewrite Ascii.eqb_refl. exact IH.
Qed.

Lemma match_here_lit_self w t : match_here (Lit w) (w ^^ t) = Some (len w, []).
Proof.
  unfold match_here. cbn [rmatch]. rewrite strip_prefix_self, len_cat.
  f_equal. f_equal. lia.
Qed.

Lemma match_here_lit_seq w r s n g :
  match_here (Seq (Lit w) r) s = Some (n, g) ->
  exists t, s = w ^^ t /\ len w <= n.
Proof.
  unfold match_here. cbn [rmatch]. intros H.
  destruct (strip_prefix w s) as [t|] eqn:E; [| discriminate H].
  apply strip_prefix_cat in E. subst s. exists t. split; [reflexivity |].
  apply rmatch_len in H as (t' & g' & Ht & H). injection H as <- _.
  rewrite len_cat. lia.
Qed.

Lemma take_cat_len w t n : take (len w + n) (w ^^ t) = w ^^ take n t.
Proof. induction w as [|a w IH]; simpl; [reflexivity | rewrite IH; reflexivity]. Qed.

Lemma strip_this_suffix_round_shrinks w r s i j :
  2 <= len w ->
  search (Seq (Lit w) r) s = Some (i, j) ->
  len (take i s ^^ sub (Lit w) "." (take (j - i) (drop i s)) ^^ drop j s)
  < len s.
Proof.
  intros Hw H.
  apply search_from_some in H as (p & g & Hi & Hp & Hij & Hn & Hm).
  simpl in Hi. subst p.
  destruct (match_here_lit_seq _ _ _ _ _ Hm) as (t & Hs & Hwn).
  rewrite Hs. replace (j - i) with (len w + (j - i - len w)) by lia.
  rewrite take_cat_len.
  assert (Hmin : forall t0 n0 g0,
             match_here (Lit w) t0 = Some (n0, g0) -> len "." <= n0).
  { intros t0 n0 g0 H0. apply match_here_lit in H0 as [-> _]. simpl. lia. }
  pose proof (len_sub_head (Lit w) "." _ _ _ Hmin
                (match_here_lit_self w (take (j - i - len w) t))) as Hl.
  rewrite !len_cat, len_take, len_drop in *.
  assert (Hd : len (drop i s) = len s - i) by apply len_drop.
  rewrite Hs, len_cat in Hd. simpl in Hl. lia.
Qed.

Lemma strip_this_suffix_loop_exit w r fuel : forall s,
  2 <= len w -> len s <= fuel ->
  search (Seq (Lit w) r)
    (strip_this_suffix_loop fuel (Seq (Lit w) r) (Lit w) s) = None.
Proof.
  induction fuel as [|fuel IH]; intros s Hw Hlen.
  - destruct s; [| simpl in Hlen; lia]. cbn [strip_this_suffix_loop].
    apply search_empty_none. unfold match_here. cbn [rmatch].
    destruct w; [simpl in Hw; lia | reflexivity].
  - cbn [strip_this_suffix_loop].
    destruct (search (Seq (Lit w) r) s) as [[i j]|] eqn:E; [| exact E].
    apply IH; [exact Hw |].
    pose proof (strip_this_suffix_round_shrinks w r s i j Hw E). lia.
Qed.

(** The loops of [strip_suffixes] and [fix_initials] stop for want of a
    match, not for want of fuel. *)
Lemma normalizer_loops_run_to_the_end s :
  search re_Jr_dot_cap
    (strip_this_suffix_loop (len s) re_Jr_dot_cap re_Jr_dot s) = None
  /\ search re_Sr_dot_cap
       (strip_this_suffix_loop (len s) re_Sr_dot_cap re_Sr_dot s) = None
  /\ search re_two_initials (fix_initials_loop1 (len s) s) = None
  /\ search re_initial_cap (fix_initials_loop2 (len s) s) = None.
Proof.
  repeat split.
  - apply (strip_this_suffix_loop_exit " Jr." (Seq (Plus space) upper));
      [simpl | ]; lia.
  - apply (strip_this_suffix_loop_exit " Sr." (Seq (Plus space) upper));
      [simpl | ]; lia.
  - apply fix_initials_loop1_exit. lia.
  - apply fix_initials_loop2_exit. lia.
Qed.

(** ** Fatal conditions *)

Lemma process_defense_position_known p :
  unknown_position p = false -> exists c, process_defense_position p = Ok c.
Proof.
  unfold unknown_position, process_defense_position.
  destruct (POSITION_CODE_DICT !! p); [eauto |].
  destruct (is_known_base _); [eauto | discriminate].
Qed.

Lemma process_defense_position_unknown p :
  unknown_position p = true ->
  process_defense_position p
  = Err (ValueError (p ^^ " not in position code dict")).
Proof.
  unfold unknown_position, process_defense_position.
  destruct (POSITION_CODE_DICT !! p); [discriminate |].
  destruct (is_known_base _); [discriminate | reflexivity].
Qed.

Lemma process_defense_predicate_list_unknown good tok rest :
  Forall (fun p => unknown_position p = false) good ->
  unknown_position tok = true ->
  process_defense_predicate_list (good ++ tok :: rest)
  = Err (ValueError (tok ^^ " not in position code dict")).
Proof.
  intros Hgood Htok. induction Hgood as [|p good Hp _ IH];
    cbn [app process_defense_predicate_list].
  - rewrite (process_defense_position_unknown tok Htok). reflexivity.
  - destruct (process_defense_position_known p Hp) as [c ->].
    cbn [mbind result_bind]. rewrite IH. reflexivity.
Qed.

Lemma init_stages self :
  PlateAppearance.init self
  = match get_out_runners_list self with
    | Err e => Err e
    | Ok runners =>
        match get_hit_location self with
        | Err e => Err e
        | Ok location =>
            match get_error_str self with
            | Err e => Err e
            | Ok error =>
                match get_on_base_and_summary self with
                | Err e => Err e
                | Ok (on_base, summary) =>
                    Ok (mk self runners location error on_base summary)
                end
            end
        end
    end.
Proof.
  unfold PlateAppearance.init.
  destruct (get_out_runners_list self); [| reflexivity].
  destruct (get_hit_location self); [| reflexivity].
  destruct (get_error_str self); [| reflexivity].
  destruct (get_on_base_and_summary self) as [[? ?]|]; reflexivity.
Qed.

Lemma get_hit_location_err self e :
  get_play_str self = Err e \/ get_throws_str self = Err e ->
  exists e', get_hit_location self = Err e'.
Proof.
  unfold get_hit_location. intros [-> | H]; [eauto |].
  destruct (get_play_str self); [rewrite H |]; eauto.
Qed.

Lemma get_throws_str_stages self :
  get_throws_str self
  = '(description_str, suffix_str) ← throws_clauses self;
    defense_code_order ← get_defense_code_order description_str;
    defense_suffix ← get_defense_suffix suffix_str;
    Ok (join "-" defense_code_order, defense_suffix).
Proof.
  unfold get_throws_str, throws_clauses.
  set (d := strip_suffixes (plate_appearance_description self)).
  destruct (contains ". " d);
    [destruct (split1 ". " d) as [|a [|b [|c l]]]; try reflexivity |];
    cbn [mbind result_bind];
    match goal with
    | |- mbind _ ?m = _ => destruct m; reflexivity
    end.
Qed.

Lemma get_defense_code_order_unknown description_str good tok rest :
  extracted_tokens description_str = Ok (good ++ tok :: rest) ->
  Forall (fun p => unknown_position p = false) good ->
  unknown_position tok = true ->
  get_defense_code_order description_str
  = Err (ValueError (tok ^^ " not in position code dict")).
Proof.
  unfold extracted_tokens, get_defense_code_order. intros Htokens Hgood Htok.
  destruct (get_defense_predicate_list description_str) as [pl|];
    [| discriminate Htokens].
  cbn [mbind result_bind] in *. rewrite Htokens. cbn [mbind result_bind].
  apply process_defense_predicate_list_unknown; assumption.
Qed.

Lemma get_defense_suffix_unknown suffix_str clause good tok rest :
  suffix_clause suffix_str = Some clause ->
  extracted_tokens clause = Ok (good ++ tok :: rest) ->
  Forall (fun p => unknown_position p = false) good ->
  unknown_position tok = true ->
  get_defense_suffix suffix_str
  = Err (ValueError (tok ^^ " not in position code dict")).
Proof.
  unfold suffix_clause, get_defense_suffix. intros Hclause Htokens Hgood Htok.
  destruct (search re_defense_suffix suffix_str) as [[start end_]|];
    [| discriminate Hclause].
  injection Hclause as <-.
  rewrite (get_defense_code_order_unknown _ _ _ _ Htokens Hgood Htok).
  reflexivity.
Qed.

Lemma init_play_err self runners e :
  get_out_runners_list self = Ok runners ->
  get_play_str self = Err e ->
  PlateAppearance.init self = Err e.
Proof.
  intros Hr Hp. rewrite init_stages, Hr. unfold get_hit_location.
  rewrite Hp. reflexivity.
Qed.

Lemma init_throws_err self runners play e :
  get_out_runners_list self = Ok runners ->
  get_play_str self = Ok play ->
  get_throws_str self = Err e ->
  PlateAppearance.init self = Err e.
Proof.
  intros Hr Hp Ht. rewrite init_stages, Hr. unfold get_hit_location.
  rewrite Hp, Ht. reflexivity.
Qed.

Lemma init_err_of_stage self e :
  get_play_str self = Err e \/ get_throws_str self = Err e ->
  exists e', PlateAppearance.init self = Err e'.
Proof.
  intros He. rewrite init_stages.
  destruct (get_out_runners_list self); [| eauto].
  destruct (get_hit_location_err self e He) as [e' ->]. eauto.
Qed.

(** C4.  Each of the two fatal conditions raises its [ValueError] and
    makes the construction fail.  A primary clause with no play keyword
    and no disqualifying pattern (under a summary label other than "Fan
    interference") makes [get_play_str] raise the error that shows the
    description.  A defensive-position token that is neither in the
    position table nor a base name, extracted from the clause of the
    chain or from the clause of the suffix, makes [get_throws_str] raise
    the error that shows the first such token.  In either case no
    [PlateAppearance] is built, and the error is the one the constructor
    raises unless an earlier step has raised its own.  An exception of
    [get_play_str] or of [get_throws_str] leaves no [PlateAppearance], and
    a [PlateAppearance] that is built holds every derived field. *)
Theorem fatal_conditions_abort_construction (self : args) :
  (String.eqb (plate_appearance_summary self) "Fan interference" = false ->
   scan_keywords PLAY_CODE_ORDERED_DICT (primary_clause self) None = None ->
   disqualified_description (primary_clause self) = false ->
   get_play_str self
   = Err (ValueError ("No keyword found in plate description: "
                      ^^ plate_appearance_description self))
   /\ (exists e', PlateAppearance.init self = Err e')
   /\ (forall runners,
         get_out_runners_list self = Ok runners ->
         PlateAppearance.init self
         = Err (ValueError ("No keyword found in plate description: "
                            ^^ plate_appearance_description self))))
  /\ (forall description_str suffix_str good tok rest,
        throws_clauses self = Ok (description_str, suffix_str) ->
        extracted_tokens description_str = Ok (good ++ tok :: rest) ->
        Forall (fun p => unknown_position p = false) good ->
        unknown_position tok = true ->
        get_throws_str self
        = Err (ValueError (tok ^^ " not in position code dict"))
        /\ (exists e', PlateAppearance.init self = Err e')
        /\ (forall runners play,
              get_out_runners_list self = Ok runners ->
              get_play_str self = Ok play ->
              PlateAppearance.init self
              = Err (ValueError (tok ^^ " not in position code dict"))))
  /\ (forall description_str suffix_str codes clause good tok rest,
        throws_clauses self = Ok (description_str, suffix_str) ->
        get_defense_code_order description_str = Ok codes ->
        suffix_clause suffix_str = Some clause ->
        extracted_tokens clause = Ok (good ++ tok :: rest) ->
        Forall (fun p => unknown_position p = false) good ->
        unknown_position tok = true ->
        get_throws_str self
        = Err (ValueError (tok ^^ " not in position code dict"))
        /\ (exists e', PlateAppearance.init self = Err e')
        /\ (forall runners play,
              get_out_runners_list self = Ok runners ->
              get_play_str self = Ok play ->
              PlateAppearance.init self
              = Err (ValueError (tok ^^ " not in position code dict"))))
  /\ (forall e,
        get_play_str self = Err e \/ get_throws_str self = Err e ->
        exists e', PlateAppearance.init self = Err e')
  /\ (forall pa,
        PlateAppearance.init self = Ok pa ->
        given pa = self
        /\ get_out_runners_list self = Ok (out_runners_list pa)
        /\ get_hit_location self = Ok (hit_location pa)
        /\ get_error_str self = Ok (error_str pa)
        /\ get_on_base_and_summary self
           = Ok (got_on_base pa, scorecard_summary pa)).
Proof.
  assert (Hthrows : forall e,
            get_throws_str self = Err e ->
            (exists e', PlateAppearance.init self = Err e')
            /\ (forall runners play,
                  get_out_runners_list self = Ok runners ->
                  get_play_str self = Ok play ->
                  PlateAppearance.init self = Err e)).
  { intros e He. split; [exact (init_err_of_stage self e (or_intror He)) |].
    intros runners play Hr Hp. exact (init_throws_err self runners play e Hr Hp He). }
  split; [| split; [| split; [| split]]].
  - intros Hfi Hscan Hdisq.
    assert (Hplay : get_play_str self
                    = Err (ValueError ("No keyword found in plate description: "
                                       ^^ plate_appearance_description self))).
    { unfold get_play_str. rewrite Hfi, Hscan, Hdisq. reflexivity. }
    split; [exact Hplay |].
    split; [exact (init_err_of_stage self _ (or_introl Hplay)) |].
    intros runners Hr. exact (init_play_err self runners _ Hr Hplay).
  - intros description_str suffix_str good tok rest Hcl Htokens Hgood Htok.
    assert (He : get_throws_str self
                 = Err (ValueError (tok ^^ " not in position code dict"))).
    { rewrite get_throws_str_stages, Hcl. cbn [mbind result_bind].
      rewrite (get_defense_code_order_unknown _ _ _ _ Htokens Hgood Htok).
      reflexivity. }
    split; [exact He | exact (Hthrows _ He)].
  - intros description_str suffix_str codes clause good tok rest
           Hcl Hcodes Hclause Htokens Hgood Htok.
    assert (He : get_throws_str self
                 = Err (ValueError (tok ^^ " not in position code dict"))).
    { rewrite get_throws_str_stages, Hcl. cbn [mbind result_bind].
      rewrite Hcodes. cbn [mbind result_bind].
      rewrite (get_defense_suffix_unknown _ _ _ _ _ Hclause Htokens Hgood Htok).
      reflexivity. }
    split; [exact He | exact (Hthrows _ He)].
  - intros e He. exact (init_err_of_stage self e He).
  - intros pa H. rewrite init_stages in H.
    destruct (get_out_runners_list self); [| discriminate H].
    destruct (get_hit_location self); [| discriminate H].
    destruct (get_error_str self); [| discriminate H].
    destruct (get_on_base_and_summary self) as [[? ?]|]; [| discriminate H].
    injection H as <-. repeat split.
Qed.

Lemma fatal_conditions_abort_construction_witness :
  PlateAppearance.init no_keyword_example
  = Err (ValueError
           "No keyword found in plate description: Mike Trout does something.")
  /\ get_throws_str unknown_position_example
     = Err (ValueError "pitcherr. not in position code dict")
  /\ PlateAppearance.init unknown_position_example
     = Err (ValueError "pitcherr. not in position code dict")
  /\ get_throws_str unknown_suffix_token_example
     = Err (ValueError "goalie not in position code dict")
  /\ PlateAppearance.init unknown_suffix_token_example
     = Err (ValueError "goalie not in position code dict").
Proof.
  destruct (fatal_conditions_abort_construction no_keyword_example)
    as (Hplay & _).
  destruct (fatal_conditions_abort_construction unknown_position_example)
    as (_ & Htoken & _).
  destruct (fatal_conditions_abort_construction unknown_suffix_token_example)
    as (_ & _ & Hsuffix & _).
  assert (H1 : String.eqb (plate_appearance_summary no_keyword_example)
                 "Fan interference" = false) by (vm_compute; reflexivity).
  assert (H2 : scan_keywords PLAY_CODE_ORDERED_DICT
                 (primary_clause no_keyword_example) None = None)
    by (vm_compute; reflexivity).
  assert (H3 : disqualified_description (primary_clause no_keyword_example)
               = false) by (vm_compute; reflexivity).
  destruct (Hplay H1 H2 H3) as (_ & _ & Hinit1).
  assert (T1 : throws_clauses unknown_position_example
               = Ok ("Mike Trout grounds out, shortstop to pitcherr.", ""))
    by (vm_compute; reflexivity).
  assert (T2 : extracted_tokens "Mike Trout grounds out, shortstop to pitcherr."
               = Ok (["shortstop"] ++ "pitcherr." :: []))
    by (vm_compute; reflexivity).
  assert (T3 : Forall (fun p => unknown_position p = false) ["shortstop"])
    by (repeat constructor).
  assert (T4 : unknown_position "pitcherr." = true)
    by (vm_compute; reflexivity).
  destruct (Htoken _ _ _ _ _ T1 T2 T3 T4) as (Hthrows2 & _ & Hinit2).
  assert (S1 : throws_clauses unknown_suffix_token_example
               = Ok ("Mike Trout flies out to center fielder Bob Hill",
                     "Joe Smith out at2nd, shortstop Al Roe to goalie Bo Day."))
    by (vm_compute; reflexivity).
  assert (S2 : get_defense_code_order
                 "Mike Trout flies out to center fielder Bob Hill" = Ok ["8"])
    by (vm_compute; reflexivity).
  assert (S3 : suffix_clause
                 "Joe Smith out at2nd, shortstop Al Roe to goalie Bo Day."
               = Some "out at2nd, shortstop Al Roe to goalie Bo Day.")
    by (vm_compute; reflexivity).
  assert (S4 : extracted_tokens "out at2nd, shortstop Al Roe to goalie Bo Day."
               = Ok (["shortstop"] ++ "goalie" :: []))
    by (vm_compute; reflexivity).
  assert (S5 : unknown_position "goalie" = true) by (vm_compute; reflexivity).
  destruct (Hsuffix _ _ _ _ _ _ _ S1 S2 S3 S4 T3 S5) as (Hthrows3 & _ & Hinit3).
  split; [apply (Hinit1 []); vm_compute; reflexivity |].
  split; [exact Hthrows2 |].
  split; [apply (Hinit2 [] "G"); vm_compute; reflexivity |].
  split; [exact Hthrows3 |].
  apply (Hinit3 [] "F"); vm_compute; reflexivity.
Defined.

(** The construction also fails where neither fatal condition holds. *)
Lemma construction_fails_beyond_fatal_conditions :
  get_play_str roster_miss_example = Ok ""
  /\ get_throws_str roster_miss_example = Ok ("8", "")
  /\ PlateAppearance.init roster_miss_example
     = Err (ValueError "Joe Smith not found in team")
  /\ ~ ((exists e, PlateAppearance.init roster_miss_example = Err e)
        <-> (exists e, get_play_str roster_miss_example = Err e
                       \/ get_throws_str roster_miss_example = Err e)).
Proof.
  assert (H1 : get_play_str roster_miss_example = Ok "")
    by (vm_compute; reflexivity).
  assert (H2 : get_throws_str roster_miss_example = Ok ("8", ""))
    by (vm_compute; reflexivity).
  assert (H3 : PlateAppearance.init roster_miss_example
               = Err (ValueError "Joe Smith not found in team"))
    by (vm_compute; reflexivity).
  repeat split; try assumption.
  intros [Hto _]. destruct (Hto (ex_intro _ _ H3)) as [e [He | He]].
  - rewrite H1 in He. discriminate He.
  - rewrite H2 in He. discriminate He.
Qed.

(** * Further properties of the code *)

(** ** More facts about strings and the matcher *)

Lemma cat_assoc s t u : (s ^^ t) ^^ u = s ^^ t ^^ u.
Proof.
  induction s as [|c s IH]; simpl; [reflexivity | rewrite IH; reflexivity].
Qed.

Lemma cat_empty_r s : s ^^ "" = s.
Proof.
  induction s as [|c s IH]; simpl; [reflexivity | rewrite IH; reflexivity].
Qed.

Lemma contains_cat_r w u s : contains w s = true -> contains w (u ^^ s) = true.
Proof.
  intros H. induction u as [|c u IH]; simpl; [exact H |].
  rewrite IH. apply orb_true_r.
Qed.

Lemma contains_drop w n s : contains w (drop n s) = true -> contains w s = true.
Proof.
  revert s. induction n as [|n IH]; intros [|c s] H; simpl in *; try exact H.
  rewrite (IH s H). apply orb_true_r.
Qed.

Lemma starts_with_contains w s : starts_with w s = true -> contains w s = true.
Proof. intros H. destruct s; simpl; rewrite H; reflexivity. Qed.

Lemma strip_prefix_starts_with w s t :
  strip_prefix w s = Some t -> starts_with w s = true.
Proof. intros H. unfold starts_with. rewrite H. reflexivity. Qed.

(** What the continuation is handed is what is left of the string. *)
Lemma rmatch_suffix {A : Type} r : forall s g (k : string -> captures -> option A) x,
  rmatch r s g k = Some x ->
  exists w t g', s = w ^^ t /\ k t g' = Some x.
Proof.
  induction r as [p|w| |a IHa b IHb|a IHa b IHb|a IHa|a IHa|i a IHa];
    intros s g k x H; cbn [rmatch] in H.
  - destruct s as [|c t]; [discriminate|]. destruct (p c); [|discriminate].
    exists (String c ""), t, g. split; [reflexivity | exact H].
  - destruct (strip_prefix w s) as [t|] eqn:Hw; [|discriminate].
    apply strip_prefix_cat in Hw. eauto.
  - destruct (at_end s); [|discriminate]. exists "", s, g. eauto.
  - apply IHa in H as (w1 & t1 & g1 & -> & H).
    apply IHb in H as (w2 & t2 & g2 & -> & H).
    exists (w1 ^^ w2), t2, g2. rewrite cat_assoc. eauto.
  - destruct (rmatch a s g k) eqn:Ha.
    + injection H as ->. apply IHa in Ha. exact Ha.
    + apply IHb in H. exact H.
  - destruct (rmatch a s g k) eqn:Ha.
    + injection H as ->. apply IHa in Ha. exact Ha.
    + exists "", s, g. eauto.
  - revert H. generalize (len s) as n. intros n. revert s g.
    induction n as [|n IHn]; intros s g H; cbn [star_rounds] in H.
    + exists "", s, g. eauto.
    + match type of H with
      | match ?m with _ => _ end = _ => destruct m eqn:Ha
      end.
      * injection H as ->. apply IHa in Ha as (w1 & t1 & g1 & -> & Ha).
        destruct (len t1 <? len (w1 ^^ t1)); [|discriminate].
        apply IHn in Ha as (w2 & t2 & g2 & -> & Ha).
        exists (w1 ^^ w2), t2, g2. rewrite cat_assoc. eauto.
      * exists "", s, g. eauto.
  - apply IHa in H as (w1 & t1 & g1 & -> & H). eauto.
Qed.

Lemma rmatch_alt {A : Type} a b s g (k : string -> captures -> option A) x :
  rmatch (Alt a b) s g k = Some x ->
  rmatch a s g k = Some x \/ rmatch b s g k = Some x.
Proof.
  cbn [rmatch]. destruct (rmatch a s g k); [intros [= ->]; left | right]; auto.
Qed.

Lemma rmatch_opt {A : Type} a s g (k : string -> captures -> option A) x :
  rmatch (Opt a) s g k = Some x ->
  rmatch a s g k = Some x \/ k s g = Some x.
Proof.
  cbn [rmatch]. destruct (rmatch a s g k); [intros [= ->]; left | right]; auto.
Qed.

(** A match of one of the out phrases: the phrase is there, and the
    continuation took over right behind it. *)
Lemma rmatch_was_phrase {A : Type} p s g (k : string -> captures -> option A) x :
  rmatch (seq [Opt (Lit "was "); Lit p]) s g k = Some x ->
  exists u t g', s = u ^^ p ^^ t /\ k t g' = Some x.
Proof.
  cbn [seq]. rewrite rmatch_seq. intros H.
  apply rmatch_opt in H as [H | H].
  - rewrite rmatch_lit in H.
    destruct (strip_prefix "was " s) as [t1|] eqn:E1; [| discriminate H].
    rewrite rmatch_lit in H.
    destruct (strip_prefix p t1) as [t2|] eqn:E2; [| discriminate H].
    apply strip_prefix_cat in E1, E2. subst. exists "was ", t2, g. eauto.
  - rewrite rmatch_lit in H.
    destruct (strip_prefix p s) as [t2|] eqn:E2; [| discriminate H].
    apply strip_prefix_cat in E2. subst. exists "", t2, g. eauto.
Qed.

Lemma rmatch_out_phrase {A : Type} s g (k : string -> captures -> option A) x :
  rmatch re_out_phrase s g k = Some x ->
  exists p u t g',
    p ∈ out_phrase_words /\ s = u ^^ p ^^ t /\ k t g' = Some x.
Proof.
  unfold re_out_phrase. cbn [alt]. intros H.
  apply rmatch_alt in H as [H | H].
  { rewrite rmatch_lit in H.
    destruct (strip_prefix "out at" s) as [t|] eqn:E; [| discriminate H].
    apply strip_prefix_cat in E. subst.
    exists "out at", "", t, g. split; [set_solver | eauto]. }
  apply rmatch_alt in H as [H | H].
  { apply rmatch_was_phrase in H as (u & t & g' & -> & H).
    exists "picked off and caught stealing", u, t, g'.
    split; [set_solver | eauto]. }
  apply rmatch_alt in H as [H | H].
  { apply rmatch_was_phrase in H as (u & t & g' & -> & H).
    exists "caught stealing", u, t, g'. split; [set_solver | eauto]. }
  apply rmatch_alt in H as [H | H].
  { apply rmatch_was_phrase in H as (u & t & g' & -> & H).
    exists "picked off", u, t, g'. split; [set_solver | eauto]. }
  apply rmatch_was_phrase in H as (u & t & g' & -> & H).
  exists "doubled off", u, t, g'. split; [set_solver | eauto].
Qed.

Lemma findall2_go_unmatched r s :
  unmatched r s -> findall2 r s = [].
Proof.
  unfold findall2. induction s as [|c s IH]; intros H; cbn [findall2_go];
    [reflexivity |].
  pose proof (H 0) as H0. cbn [drop] in H0. rewrite H0.
  apply IH. intros p. exact (H (S p)).
Qed.

Lemma has_out_phrase_intro p s :
  p ∈ out_phrase_words -> contains p s = true -> has_out_phrase s = true.
Proof.
  intros Hp Hc. unfold has_out_phrase. apply existsb_exists.
  exists p. split; [apply list_elem_of_In, Hp | exact Hc].
Qed.

(** A match of the runner pattern holds one of the out phrases. *)
Lemma match_out_runner_has_phrase s n g :
  match_here re_out_runner s = Some (n, g) -> has_out_phrase s = true.
Proof.
  unfold match_here, re_out_runner. cbn [seq]. intros H.
  rewrite rmatch_seq in H.
  apply rmatch_suffix in H as (w1 & t1 & g1 & -> & H).
  rewrite rmatch_seq in H.
  apply rmatch_suffix in H as (w2 & t2 & g2 & -> & H).
  rewrite rmatch_seq in H.
  apply rmatch_out_phrase in H as (p & u & t & g' & Hp & -> & _).
  apply (has_out_phrase_intro p); [exact Hp |].
  do 3 apply contains_cat_r. apply starts_with_contains, starts_with_cat.
Qed.

(** X1.  A description (suffixes stripped) that holds none of the out
    phrases puts no runner out, whatever the roster: the roster is not
    even consulted. *)
Theorem no_out_phrase_no_out_runners (self : args)
    (Hnone : has_out_phrase
               (strip_suffixes (plate_appearance_description self)) = false) :
  get_out_runners_list self = Ok [].
Proof.
  unfold get_out_runners_list. rewrite findall2_go_unmatched; [reflexivity |].
  intros p.
  destruct (match_here re_out_runner
              (drop p (strip_suffixes (plate_appearance_description self))))
    as [[n g]|] eqn:E; [| reflexivity].
  apply match_out_runner_has_phrase in E.
  unfold has_out_phrase in *. apply existsb_exists in E as (ph & Hin & E).
  apply contains_drop in E.
  assert (Hex : existsb
            (fun p0 => contains p0
                         (strip_suffixes (plate_appearance_description self)))
            out_phrase_words = true)
    by (apply existsb_exists; eauto).
  congruence.
Qed.

Lemma no_out_phrase_no_out_runners_witness :
  has_out_phrase
    (strip_suffixes
       (plate_appearance_description
          (appearance empty_roster "Mike Trout singles to center field."
             "Single"))) = false
  /\ get_out_runners_list
       (appearance empty_roster "Mike Trout singles to center field." "Single")
     = Ok [].
Proof.
  split; [vm_compute; reflexivity |].
  apply (no_out_phrase_no_out_runners
           (appearance empty_roster "Mike Trout singles to center field."
              "Single")).
  vm_compute. reflexivity.
Defined.

(** The suffix pattern: an out phrase with a base character right
    behind it. *)
Lemma match_defense_suffix_glued s n g :
  match_here re_defense_suffix s = Some (n, g) ->
  has_glued_out_phrase s = true.
Proof.
  unfold match_here, re_defense_suffix. cbn [seq]. intros H.
  rewrite rmatch_seq in H.
  apply rmatch_out_phrase in H as (p & u & t & g' & Hp & -> & H).
  rewrite rmatch_seq in H. unfold one_of at 1 in H.
  destruct t as [|c t]; [discriminate H |]. rewrite rmatch_chars in H.
  destruct (mem c "123,h") eqn:Hc; [| discriminate H].
  unfold has_glued_out_phrase. apply existsb_exists.
  exists p. split; [apply list_elem_of_In, Hp |].
  apply existsb_exists. exists c. split.
  - unfold mem in Hc. cbn [contains] in Hc. rewrite !starts_with_char in Hc.
    cbn [list_ascii_of_string In].
    repeat (apply orb_prop in Hc as [Hc | Hc];
            [apply Ascii.eqb_eq in Hc; subst; tauto |]).
    unfold starts_with in Hc. discriminate Hc.
  - apply contains_cat_r.
    change (String c t) with (String c "" ^^ t).
    rewrite <- cat_assoc. apply starts_with_contains, starts_with_cat.
Qed.

(** X2.  The parenthesized suffix is empty unless an out phrase is
    directly followed by one of "1", "2", "3", "," and "h": with a space
    after the phrase ("out at 2nd, ...") nothing is appended. *)
Theorem defense_suffix_needs_glued_base (suffix_str : string)
    (Hspaced : has_glued_out_phrase suffix_str = false) :
  get_defense_suffix suffix_str = Ok "".
Proof.
  unfold get_defense_suffix.
  destruct (search re_defense_suffix suffix_str) as [[start end_]|] eqn:E;
    [| reflexivity].
  apply search_from_some in E as (p & g & _ & _ & _ & _ & E).
  apply match_defense_suffix_glued in E.
  unfold has_glued_out_phrase in *.
  apply existsb_exists in E as (ph & Hin & E).
  apply existsb_exists in E as (c & Hc & E). apply contains_drop in E.
  assert (Hex : existsb
            (fun p0 => existsb (fun c0 => contains (p0 ^^ String c0 "") suffix_str)
                         (list_ascii_of_string "123,h"))
            out_phrase_words = true).
  { apply existsb_exists. exists ph. split; [exact Hin |].
    apply existsb_exists. eauto. }
  congruence.
Qed.

Lemma defense_suffix_needs_glued_base_witness :
  has_glued_out_phrase
    "Joe Smith out at 2nd, shortstop Al Roe to second baseman Bob Hill." = false
  /\ get_defense_suffix
       "Joe Smith out at 2nd, shortstop Al Roe to second baseman Bob Hill."
     = Ok "".
Proof.
  split; [vm_compute; reflexivity |].
  apply defense_suffix_needs_glued_base. vm_compute. reflexivity.
Defined.

(** ** Position codes *)

Lemma position_code_in_codes p c :
  position_code p = Some c -> c ∈ position_codes.
Proof.
  unfold position_code. destruct (POSITION_CODE_DICT !! p) as [z|] eqn:E;
    [| discriminate].
  intros [= <-].
  assert (Hall : map_Forall (fun _ z => of_Z z ∈ position_codes)
                   POSITION_CODE_DICT).
  { unfold POSITION_CODE_DICT. apply map_Forall_to_list.
    vm_compute. repeat constructor; set_solver. }
  exact (Hall p z E).
Qed.

Lemma process_defense_position_code p :
  unknown_position p = false ->
  process_defense_position p = Ok (position_code p).
Proof.
  unfold unknown_position, process_defense_position, position_code.
  destruct (POSITION_CODE_DICT !! p); [reflexivity |].
  destruct (is_known_base _); [reflexivity | discriminate].
Qed.

Lemma omap_cons_code p l :
  omap position_code (p :: l)
  = match position_code p with
    | Some c => c :: omap position_code l
    | None => omap position_code l
    end.
Proof. reflexivity. Qed.

Lemma process_defense_predicate_list_known l :
  Forall (fun p => unknown_position p = false) l ->
  process_defense_predicate_list l = Ok (omap position_code l).
Proof.
  induction 1 as [|p l Hp _ IH]; [reflexivity |].
  cbn [process_defense_predicate_list].
  rewrite (process_defense_position_code p Hp), IH, omap_cons_code.
  reflexivity.
Qed.

Lemma process_defense_predicate_list_ok l : forall codes,
  process_defense_predicate_list l = Ok codes ->
  Forall (fun p => unknown_position p = false) l.
Proof.
  induction l as [|p l IH]; intros codes H; [constructor |].
  cbn [process_defense_predicate_list] in H.
  destruct (unknown_position p) eqn:Hp.
  - rewrite (process_defense_position_unknown p Hp) in H. discriminate H.
  - rewrite (process_defense_position_code p Hp) in H.
    cbn [mbind result_bind] in H.
    destruct (process_defense_predicate_list l) as [rest|e];
      [| discriminate H].
    constructor; [exact Hp | exact (IH rest eq_refl)].
Qed.

Lemma process_defense_predicate_list_range l codes :
  process_defense_predicate_list l = Ok codes ->
  Forall (fun c => c ∈ position_codes) codes.
Proof.
  intros H. pose proof (process_defense_predicate_list_ok l codes H) as Hall.
  rewrite (process_defense_predicate_list_known l Hall) in H.
  injection H as <-. apply Forall_forall. intros c Hc.
  apply list_elem_of_omap in Hc as (p & _ & Hp).
  exact (position_code_in_codes p c Hp).
Qed.

(** X3.  [process_defense_predicate_list] succeeds exactly when no token
    is unknown; what it returns then are the codes of the position names,
    in their order, the base names left out: every entry is one of the
    ten position codes and there are no more entries than tokens. *)
Theorem process_defense_predicate_list_codes (l codes : list string) :
  (process_defense_predicate_list l = Ok codes
   <-> Forall (fun p => unknown_position p = false) l
       /\ codes = omap position_code l)
  /\ (process_defense_predicate_list l = Ok codes ->
      Forall (fun c => c ∈ position_codes) codes
      /\ length codes <= length l).
Proof.
  assert (Hiff : process_defense_predicate_list l = Ok codes
                 <-> Forall (fun p => unknown_position p = false) l
                     /\ codes = omap position_code l).
  { split.
    - intros H. pose proof (process_defense_predicate_list_ok l codes H) as Hall.
      split; [exact Hall |].
      rewrite (process_defense_predicate_list_known l Hall) in H.
      congruence.
    - intros [Hall ->]. apply process_defense_predicate_list_known, Hall. }
  split; [exact Hiff |].
  intros H. apply Hiff in H as [_ ->]. split.
  - apply Forall_forall. intros c Hc.
    apply list_elem_of_omap in Hc as (p & _ & Hp).
    exact (position_code_in_codes p c Hp).
  - clear. induction l as [|p l IH]; [reflexivity |].
    rewrite omap_cons_code. destruct (position_code p); simpl; lia.
Qed.

Lemma process_defense_predicate_list_codes_witness :
  process_defense_predicate_list ["shortstop"; "2nd"; "first"] = Ok ["6"; "3"]
  /\ Forall (fun c => c ∈ position_codes) ["6"; "3"]
  /\ length ["6"; "3"] <= length ["shortstop"; "2nd"; "first"].
Proof.
  assert (H : process_defense_predicate_list ["shortstop"; "2nd"; "first"]
              = Ok ["6"; "3"]) by (vm_compute; reflexivity).
  split; [exact H |].
  exact (proj2 (process_defense_predicate_list_codes
                  ["shortstop"; "2nd"; "first"] ["6"; "3"]) H).
Defined.

(** ** The chain and the hit location *)

Lemma bind_Ok_inv {A B : Type} (m : result A) (f : A -> result B) y :
  m ≫= f = Ok y -> exists x, m = Ok x /\ f x = Ok y.
Proof. destruct m as [x|e]; [eauto | discriminate]. Qed.

Lemma get_defense_code_order_codes d codes :
  get_defense_code_order d = Ok codes ->
  Forall (fun c => c ∈ position_codes) codes.
Proof.
  unfold get_defense_code_order. intros H.
  apply bind_Ok_inv in H as (pl & _ & H).
  apply bind_Ok_inv in H as (po & _ & H).
  exact (process_defense_predicate_list_range po codes H).
Qed.

Lemma get_throws_str_codes self throws suffix :
  get_throws_str self = Ok (throws, suffix) ->
  exists codes,
    Forall (fun c => c ∈ position_codes) codes /\ throws = join "-" codes.
Proof.
  unfold get_throws_str. intros H.
  apply bind_Ok_inv in H as ([d s] & _ & H).
  apply bind_Ok_inv in H as (d' & _ & H).
  apply bind_Ok_inv in H as (codes & Hcodes & H).
  apply bind_Ok_inv in H as (sfx & _ & H).
  injection H as <- _. exists codes.
  split; [exact (get_defense_code_order_codes _ _ Hcodes) | reflexivity].
Qed.

Lemma join_codes_head codes c rest :
  Forall (fun c => c ∈ position_codes) codes ->
  join "-" codes = String c rest ->
  c ∈ list_ascii_of_string "123456789".
Proof.
  intros Hall Hjoin. destruct Hall as [|x l Hx _]; [discriminate Hjoin |].
  assert (Hhead : exists t, x = String c t).
  { destruct x as [|c' t].
    - exfalso. unfold position_codes in Hx.
      repeat (apply elem_of_cons in Hx as [Hx | Hx]; [discriminate Hx |]).
      by apply elem_of_nil in Hx.
    - destruct l; cbn [join cat] in Hjoin; injection Hjoin as -> _; eauto. }
  destruct Hhead as [t ->]. revert Hx. clear. unfold position_codes.
  cbn [list_ascii_of_string]. rewrite !elem_of_cons.
  intros H. repeat (destruct H as [H | H]; [injection H as -> _; tauto |]).
  by apply elem_of_nil in H.
Qed.

Lemma get_hit_location_inv self location :
  get_hit_location self = Ok location ->
  exists play throws suffix,
    get_play_str self = Ok play
    /\ get_throws_str self = Ok (throws, suffix)
    /\ location = match throws with
                  | String c _ =>
                      if bool_decide (play ∈ NO_HIT_CODE_LIST)
                      then None
                      else Some (play ^^ String c "")
                  | EmptyString => None
                  end.
Proof.
  unfold get_hit_location. intros Hloc.
  apply bind_Ok_inv in Hloc as (play & Hplay & Hloc).
  apply bind_Ok_inv in Hloc as ([throws suffix] & Hthrows & Hloc).
  exists play, throws, suffix. split; [exact Hplay | split; [exact Hthrows |]].
  destruct throws as [|c rest]; [congruence |].
  destruct (bool_decide _); congruence.
Qed.

(** X4.  A hit location is the play code followed by one digit from 1 to
    9, the first character of the chain; there is none when the chain is
    empty or the play code is one of K, ꓘ, BB and IBB. *)
Theorem hit_location_shape (self : args) (location : option string)
    (Hloc : get_hit_location self = Ok location) :
  exists play throws suffix,
    get_play_str self = Ok play
    /\ get_throws_str self = Ok (throws, suffix)
    /\ match location with
       | Some h =>
           (play ∉ NO_HIT_CODE_LIST)
           /\ exists c rest,
               throws = String c rest
               /\ c ∈ list_ascii_of_string "123456789"
               /\ h = play ^^ String c ""
       | None => throws = "" \/ play ∈ NO_HIT_CODE_LIST
       end.
Proof.
  apply get_hit_location_inv in Hloc
    as (play & throws & suffix & Hplay & Hthrows & ->).
  exists play, throws, suffix. split; [exact Hplay | split; [exact Hthrows |]].
  destruct (get_throws_str_codes _ _ _ Hthrows) as (codes & Hcodes & Hjoin).
  destruct throws as [|c rest].
  - left. reflexivity.
  - destruct (bool_decide (play ∈ NO_HIT_CODE_LIST)) eqn:Hno.
    + right. apply bool_decide_eq_true in Hno. exact Hno.
    + apply bool_decide_eq_false in Hno. split; [exact Hno |].
      exists c, rest. repeat split.
      exact (join_codes_head codes c rest Hcodes (eq_sym Hjoin)).
Qed.

Lemma hit_location_shape_witness :
  get_hit_location
    (appearance empty_roster
       "Mike Trout grounds out, shortstop Al Roe to first baseman Bob Hill."
       "Groundout") = Ok (Some "G6")
  /\ exists play throws suffix,
      get_play_str
        (appearance empty_roster
           "Mike Trout grounds out, shortstop Al Roe to first baseman Bob Hill."
           "Groundout") = Ok play
      /\ get_throws_str
           (appearance empty_roster
              "Mike Trout grounds out, shortstop Al Roe to first baseman Bob Hill."
              "Groundout") = Ok (throws, suffix)
      /\ ((play ∉ NO_HIT_CODE_LIST)
          /\ exists c rest,
              throws = String c rest
              /\ c ∈ list_ascii_of_string "123456789"
              /\ "G6" = play ^^ String c "").
Proof.
  assert (H : get_hit_location
            (appearance empty_roster
               "Mike Trout grounds out, shortstop Al Roe to first baseman Bob Hill."
               "Groundout") = Ok (Some "G6")) by (vm_compute; reflexivity).
  split; [exact H |].
  exact (hit_location_shape _ _ H).
Defined.

(** ** The error code *)

(** X5.  An error code, when there is one, is "E" and a position code;
    there is none exactly when the description holds neither "error" nor
    "catcher interference". *)
Theorem error_str_shape (self : args) (error : option string)
    (Herr : get_error_str self = Ok error) :
  match error with
  | Some e =>
      e ∈ error_codes
      /\ (contains "error" (plate_appearance_description self) = true
          \/ e = "E2")
  | None =>
      contains "error" (plate_appearance_description self) = false
      /\ contains "catcher interference" (plate_appearance_description self)
         = false
  end.
Proof.
  unfold get_error_str in Herr.
  destruct (contains "error" (plate_appearance_description self)) eqn:He.
  - apply bind_Ok_inv in Herr as (d & _ & Herr).
    apply bind_Ok_inv in Herr as (p & _ & Herr).
    apply bind_Ok_inv in Herr as (z & Hz & Herr).
    injection Herr as <-. split; [| left; reflexivity].
    unfold dict_getitem in Hz.
    destruct (POSITION_CODE_DICT !! p) as [z'|] eqn:E; [| discriminate Hz].
    injection Hz as ->.
    assert (Hc : position_code p = Some (of_Z z))
      by (unfold position_code; rewrite E; reflexivity).
    apply position_code_in_codes in Hc.
    unfold error_codes. apply list_elem_of_fmap. eauto.
  - destruct (contains "catcher interference"
                (plate_appearance_description self));
      injection Herr as <-.
    + split; [| right; reflexivity].
      apply list_elem_of_further, list_elem_of_here.
    + split; reflexivity.
Qed.

Lemma error_str_shape_witness :
  get_error_str
    (appearance empty_roster
       "Mike Trout reaches on a throwing error by shortstop Al Roe."
       "Field Error") = Ok (Some "E6")
  /\ "E6" ∈ error_codes.
Proof.
  assert (H : get_error_str
            (appearance empty_roster
               "Mike Trout reaches on a throwing error by shortstop Al Roe."
               "Field Error") = Ok (Some "E6")) by (vm_compute; reflexivity).
  split; [exact H |].
  exact (proj1 (error_str_shape _ _ H)).
Defined.

(** ** The play code *)

Lemma scan_keywords_range table d code :
  scan_keywords table d code = code
  \/ exists c, scan_keywords table d code = Some c /\ c ∈ table.*2.
Proof.
  revert code. induction table as [|[kw c] table IH]; intros code;
    cbn [scan_keywords]; [left; reflexivity |].
  destruct (contains kw d).
  - right. destruct (IH (Some c)) as [-> | (c' & -> & Hc')].
    + exists c. split; [reflexivity | apply list_elem_of_here].
    + exists c'. split; [reflexivity | apply list_elem_of_further, Hc'].
  - destruct (IH code) as [-> | (c' & -> & Hc')]; [left; reflexivity |].
    right. exists c'. split; [reflexivity | apply list_elem_of_further, Hc'].
Qed.

Lemma fan_interference_code : "FI" ∈ PLAY_CODE_ORDERED_DICT.*2.
Proof. do 6 apply list_elem_of_further. apply list_elem_of_here. Qed.

(** X6.  A play code is a code of the keyword table, or empty; it is
    empty only when no keyword of the table occurs in the primary clause
    and the clause is disqualified. *)
Theorem play_str_range (self : args) (play : string)
    (Hplay : get_play_str self = Ok play) :
  (play ∈ PLAY_CODE_ORDERED_DICT.*2
   \/ play = "")
  /\ (play = "" ->
      scan_keywords PLAY_CODE_ORDERED_DICT (primary_clause self) None = None
      /\ disqualified_description (primary_clause self) = true).
Proof.
  unfold get_play_str in Hplay.
  destruct (scan_keywords_range PLAY_CODE_ORDERED_DICT (primary_clause self) None)
    as [Hscan | (c & Hscan & Hc)]; rewrite Hscan in Hplay.
  - destruct (String.eqb (plate_appearance_summary self) "Fan interference").
    + injection Hplay as <-.
      split; [left; exact fan_interference_code | discriminate].
    + cbn [falsy] in Hplay.
      destruct (disqualified_description (primary_clause self)) eqn:Hd;
        [| discriminate Hplay].
      injection Hplay as <-. split; [right; reflexivity |]. intros _.
      split; [exact Hscan | reflexivity].
  - assert (Htruthy : falsy (Some c) = false).
    { pose proof play_codes_truthy as Hall.
      rewrite Forall_forall in Hall.
      apply list_elem_of_fmap in Hc as ([kw c'] & -> & Hin).
      exact (Hall _ Hin). }
    destruct (String.eqb (plate_appearance_summary self) "Fan interference").
    + injection Hplay as <-.
      split; [left; exact fan_interference_code | discriminate].
    + rewrite Htruthy in Hplay. injection Hplay as <-.
      split; [left; exact Hc |]. intros ->. discriminate Htruthy.
Qed.

Lemma play_str_range_witness :
  get_play_str (appearance empty_roster "singles to left" "Single") = Ok ""
  /\ disqualified_description
       (primary_clause (appearance empty_roster "singles to left" "Single"))
     = true.
Proof.
  assert (H : get_play_str (appearance empty_roster "singles to left" "Single")
              = Ok "") by (vm_compute; reflexivity).
  split; [exact H |].
  exact (proj2 (proj2 (play_str_range _ _ H) eq_refl)).
Defined.

(** ** The scorecard summary *)

Lemma starts_with_cat_cat u c rest t :
  starts_with (u ^^ String c "") (u ^^ String c rest ^^ t) = true.
Proof.
  change (String c rest ^^ t) with (String c "" ^^ rest ^^ t).
  rewrite <- cat_assoc. apply starts_with_cat.
Qed.

(** X7.  A plate appearance that was built is on base exactly when its
    summary label is one of the on-base labels; its scorecard summary is
    then the fixed notation of the label followed by the suffix, and the
    play code and the chain do not show.  Otherwise the summary is the
    play code, the chain and the suffix, and a hit location, if there is
    one, is how the summary starts. *)
Theorem scorecard_summary_shape (self : args) (pa : PlateAppearance.t)
    (Hinit : PlateAppearance.init self = Ok pa) :
  exists play throws suffix,
    get_play_str self = Ok play
    /\ get_throws_str self = Ok (throws, suffix)
    /\ match ON_BASE_SUMMARY_DICT !! plate_appearance_summary self with
       | Some notation =>
           got_on_base pa = true
           /\ scorecard_summary pa = notation ^^ suffix
       | None =>
           got_on_base pa = false
           /\ scorecard_summary pa = play ^^ throws ^^ suffix
           /\ forall h, hit_location pa = Some h ->
                        starts_with h (scorecard_summary pa) = true
       end.
Proof.
  rewrite init_stages in Hinit.
  destruct (get_out_runners_list self) as [runners|]; [| discriminate Hinit].
  destruct (get_hit_location self) as [location|] eqn:Hloc;
    [| discriminate Hinit].
  destruct (get_error_str self) as [error|]; [| discriminate Hinit].
  destruct (get_on_base_and_summary self) as [[on_base summary]|] eqn:Hsum;
    [| discriminate Hinit].
  injection Hinit as <-. cbn [got_on_base scorecard_summary hit_location].
  destruct (get_hit_location_inv self location Hloc)
    as (play & throws & suffix & Hplay & Hthrows & Hshape).
  exists play, throws, suffix. split; [exact Hplay | split; [exact Hthrows |]].
  unfold get_on_base_and_summary in Hsum. rewrite Hthrows in Hsum.
  cbn [mbind result_bind] in Hsum.
  destruct (ON_BASE_SUMMARY_DICT !! plate_appearance_summary self) as [n|].
  - injection Hsum as <- <-. split; reflexivity.
  - rewrite Hplay in Hsum. cbn [mbind result_bind] in Hsum.
    injection Hsum as <- <-. split; [reflexivity | split; [reflexivity |]].
    intros h ->. destruct throws as [|c rest]; [discriminate Hshape |].
    destruct (bool_decide _); [discriminate Hshape |].
    injection Hshape as ->. apply starts_with_cat_cat.
Qed.

Lemma scorecard_summary_shape_witness :
  exists pa,
    PlateAppearance.init
      (appearance empty_roster
         "Mike Trout grounds out, shortstop Al Roe to first baseman Bob Hill."
         "Groundout") = Ok pa
    /\ scorecard_summary pa = "G6-3"
    /\ hit_location pa = Some "G6"
    /\ starts_with "G6" (scorecard_summary pa) = true.
Proof.
  destruct (PlateAppearance.init
              (appearance empty_roster
                 "Mike Trout grounds out, shortstop Al Roe to first baseman Bob Hill."
                 "Groundout")) as [pa|e] eqn:H; [| vm_compute in H; discriminate H].
  exists pa. split; [reflexivity |].
  destruct (scorecard_summary_shape _ pa H)
    as (play & throws & suffix & Hplay & Hthrows & Hshape).
  assert (Hs : scorecard_summary pa = "G6-3" /\ hit_location pa = Some "G6").
  { vm_compute in H. injection H as <-. split; reflexivity. }
  destruct Hs as [Hs Hh]. split; [exact Hs | split; [exact Hh |]].
  change (ON_BASE_SUMMARY_DICT
          !! plate_appearance_summary
               (appearance empty_roster
                  "Mike Trout grounds out, shortstop Al Roe to first baseman Bob Hill."
                  "Groundout"))
    with (ON_BASE_SUMMARY_DICT !! "Groundout") in Hshape.
  replace (ON_BASE_SUMMARY_DICT !! "Groundout") with (@None string) in Hshape
    by (vm_compute; reflexivity).
  destruct Hshape as (_ & _ & Hprefix). exact (Hprefix "G6" Hh).
Defined.

(** ** Registration *)

Lemma rstrip_by_idem p s : rstrip_by p (rstrip_by p s) = rstrip_by p s.
Proof.
  induction s as [|c s IH]; [reflexivity |]. cbn [rstrip_by].
  destruct (rstrip_by p s) as [|c' s'] eqn:E.
  - destruct (p c) eqn:Hc; [reflexivity |]. cbn [rstrip_by]. rewrite Hc.
    reflexivity.
  - cbn [rstrip_by] in *. rewrite IH. reflexivity.
Qed.

Lemma last_ok_tail c t : last_ok (String c t) -> t <> "" -> last_ok t.
Proof.
  intros [_ H] Ht. split; [exact Ht |]. cbn [rstrip_by] in H.
  destruct (rstrip_by is_space t) as [|c' t'] eqn:E.
  - destruct (is_space c); [discriminate H |]. injection H as <-.
    contradiction.
  - injection H as <-. reflexivity.
Qed.

Lemma last_ok_cons c t : last_ok t -> last_ok (String c t).
Proof.
  intros [Ht H]. split; [discriminate |]. cbn [rstrip_by]. rewrite H.
  destruct t; [contradiction | reflexivity].
Qed.

Lemma last_ok_cat u t : last_ok t -> last_ok (u ^^ t).
Proof.
  intros H. induction u as [|c u IH]; [exact H |]. apply last_ok_cons, IH.
Qed.

Lemma last_ok_single c : last_ok (String c "") -> is_space c = false.
Proof.
  intros [_ H]. cbn [rstrip_by] in H.
  destruct (is_space c); [discriminate H | reflexivity].
Qed.

(** A substitution whose matches never reach the end of such a string
    leaves its end as it is. *)
Lemma sub_go_last_ok r repl :
  (forall s n g, match_here r s = Some (n, g) -> last_ok s -> n < len s) ->
  forall s skip, last_ok s -> skip < len s -> last_ok (sub_go r repl s skip).
Proof.
  intros Hr. induction s as [|c t IH]; intros skip Hs Hskip;
    [simpl in Hskip; lia |].
  assert (Htail : forall n, n < len t -> last_ok (sub_go r repl t n)).
  { intros n Hn. apply IH; [| exact Hn].
    apply (last_ok_tail c); [exact Hs |]. intros ->. simpl in Hn. lia. }
  destruct skip as [|skip]; cbn [sub_go].
  - destruct (match_here r (String c t)) as [[[|n] g]|] eqn:Hm.
    + destruct t as [|c' t']; [exact Hs |].
      apply last_ok_cons, Htail. simpl. lia.
    + pose proof (Hr _ _ _ Hm Hs) as Hn. simpl in Hn.
      apply last_ok_cat, Htail. lia.
    + destruct t as [|c' t']; [exact Hs |].
      apply last_ok_cons, Htail. simpl. lia.
  - apply Htail. simpl in Hskip. lia.
Qed.

Lemma match_lit_spaced_inside w s n g :
  match_here (Lit (w ^^ " ")) s = Some (n, g) -> last_ok s -> n < len s.
Proof.
  intros Hm Hs. apply match_here_lit in Hm as [-> [t ->]].
  destruct t as [|c t]; [| rewrite !len_cat; simpl; lia].
  exfalso. rewrite cat_empty_r in Hs. destruct Hs as [_ Hs].
  revert Hs. clear. induction w as [|c w IH]; [discriminate |].
  cbn [cat rstrip_by]. intros H.
  destruct (rstrip_by is_space (w ^^ " ")) as [|c' t'] eqn:E.
  - destruct (is_space c); [discriminate H |]. injection H as H.
    destruct w; discriminate H.
  - injection H as H. apply IH. congruence.
Qed.

Lemma words_last_ok t : last_ok t -> words t <> [].
Proof.
  unfold words. induction t as [|c t IH]; intros Ht; [destruct Ht; contradiction |].
  cbn [words_go]. destruct (words_go t) as [w ws] eqn:E.
  destruct (is_space c) eqn:Hc; [| discriminate].
  apply IH. destruct t as [|c' t'].
  - apply last_ok_single in Ht. congruence.
  - apply (last_ok_tail c); [exact Ht | discriminate].
Qed.

Lemma words_go_second t :
  last_ok t -> none_of is_space t = false -> (words_go t).2 <> [].
Proof.
  induction t as [|c t IH]; intros Ht Hsp; [discriminate Hsp |].
  cbn [words_go none_of] in *. destruct (words_go t) as [w ws] eqn:E.
  assert (Hwords : t <> "" -> last_ok t)
    by (intros Hne; apply (last_ok_tail c); assumption).
  destruct (is_space c) eqn:Hc; cbn [snd negb andb] in *.
  - destruct t as [|c' t'].
    + apply last_ok_single in Ht. congruence.
    + pose proof (words_last_ok _ (Hwords ltac:(discriminate))) as Hw.
      unfold words in Hw. rewrite E in Hw. exact Hw.
  - destruct t as [|c' t']; [discriminate Hsp |].
    apply IH; [apply Hwords; discriminate | exact Hsp].
Qed.

Lemma contains_space_not_none_of s :
  contains " " s = true -> none_of is_space s = false.
Proof.
  induction s as [|c s IH]; cbn [contains none_of].
  - unfold starts_with. cbn. discriminate.
  - rewrite starts_with_char. intros H.
    apply orb_prop in H as [H | H].
    + apply Ascii.eqb_eq in H. subst c. reflexivity.
    + rewrite (IH H). apply andb_false_r.
Qed.

(** The last-name handling of [append] never raises. *)
Lemma short_last_name_total last_name :
  exists short, Team.short_last_name last_name = Ok short.
Proof.
  unfold Team.short_last_name.
  set (y := sub re_IV_end "" _).
  destruct (contains " " (sub re_St_dot " St " (strip y))) eqn:Hsp; [| eauto].
  destruct (strip_by_head is_space y) as [Hempty | (c & t & Hct & Hc)].
  { fold (strip y) in Hempty. rewrite Hempty in Hsp. vm_compute in Hsp.
    discriminate Hsp. }
  fold (strip y) in Hct.
  assert (Hlast : last_ok (strip y)).
  { split; [rewrite Hct; discriminate |].
    unfold strip, strip_by. apply rstrip_by_idem. }
  assert (Hx : last_ok (sub re_St_dot " St " (strip y))).
  { apply sub_go_last_ok; [| exact Hlast | rewrite Hct; simpl; lia].
    intros s n g. apply (match_lit_spaced_inside " St."). }
  rewrite Hct in Hsp, Hx |- *.
  rewrite (sub_head_keep re_St_dot " St " c t (needs_space_lit "St. ") Hc)
    in Hsp, Hx |- *.
  assert (Hnot : Ascii.eqb " " c = false).
  { destruct (Ascii.eqb_spec " " c) as [<-|]; [discriminate Hc | reflexivity]. }
  cbn [contains] in Hsp. rewrite starts_with_char, Hnot in Hsp.
  cbn [orb] in Hsp.
  assert (Hne : sub re_St_dot " St " t <> "").
  { intros Hne. rewrite Hne in Hsp. vm_compute in Hsp. discriminate Hsp. }
  pose proof (words_go_second (sub re_St_dot " St " t)
                (last_ok_tail c _ Hx Hne)
                (contains_space_not_none_of _ Hsp)) as Hsecond.
  unfold words. cbn [words_go].
  destruct (words_go (sub re_St_dot " St " t)) as [w ws].
  rewrite Hc. cbn [snd] in Hsecond.
  destruct ws as [|b rest]; [contradiction |].
  unfold list_index. cbn. eauto.
Qed.

Lemma words_go_clean s :
  none_of is_space (words_go s).1 = true
  /\ Forall (fun w => none_of is_space w = true /\ w <> "") (words_go s).2.
Proof.
  induction s as [|c s [IHw IHws]]; cbn [words_go];
    [split; [reflexivity | constructor] |].
  destruct (words_go s) as [w ws]. cbn [fst snd] in *.
  destruct (is_space c) eqn:Hc; cbn [fst snd none_of].
  - split; [reflexivity |].
    destruct w; [exact IHws |].
    constructor; [split; [exact IHw | discriminate] | exact IHws].
  - rewrite Hc, IHw. split; [reflexivity | exact IHws].
Qed.

(** The words of a string hold no white space and are not empty. *)
Lemma words_clean s :
  Forall (fun w => none_of is_space w = true /\ w <> "") (words s).
Proof.
  unfold words. destruct (words_go_clean s) as [Hw Hws].
  destruct (words_go s) as [w ws]. cbn [fst snd] in *.
  destruct w; [exact Hws |].
  constructor; [split; [exact Hw | discriminate] | exact Hws].
Qed.

Lemma none_of_no_space s : none_of is_space s = true -> contains " " s = false.
Proof.
  intros H. destruct (contains " " s) eqn:E; [| reflexivity].
  apply contains_space_not_none_of in E. congruence.
Qed.

(** X8.  The last-name handling of [append] never raises, and the short
    last name it files a player under holds no space. *)
Theorem short_last_name_shape (last_name : string) :
  exists short,
    Team.short_last_name last_name = Ok short /\ contains " " short = false.
Proof.
  destruct (short_last_name_total last_name) as [short Hshort].
  exists short. split; [exact Hshort |].
  unfold Team.short_last_name in Hshort.
  set (x := sub re_St_dot " St " _) in Hshort.
  destruct (contains " " x) eqn:Hsp.
  - unfold list_index in Hshort.
    destruct (nth_error (words x) 1) as [w|] eqn:E; [| discriminate Hshort].
    injection Hshort as <-.
    pose proof (words_clean x) as Hall. rewrite Forall_forall in Hall.
    apply nth_error_In, list_elem_of_In in E.
    apply none_of_no_space, (proj1 (Hall w E)).
  - injection Hshort as <-. exact Hsp.
Qed.

(** X9.  [append] raises only for a player whose first name is empty,
    and then the id index and the full-name index already hold him while
    the fuzzy index is as it was; otherwise the three indices hold him. *)
Theorem append_raises_only_for_empty_first_name (self : Team.t)
    (player : Player) :
  match first_name player with
  | EmptyString =>
      (Team.append self player).2 = Err IndexError
      /\ Team.player_id_dict (Team.append self player).1 !! mlb_id player
         = Some player
      /\ Team.player_name_dict (Team.append self player).1
         !! full_name player = Some player
      /\ Team.player_last_name_dict (Team.append self player).1
         = Team.player_last_name_dict self
  | String initial _ =>
      (Team.append self player).2 = Ok ()
      /\ Team.player_id_dict (Team.append self player).1 !! mlb_id player
         = Some player
      /\ Team.player_name_dict (Team.append self player).1
         !! full_name player = Some player
      /\ exists short,
          Team.short_last_name (last_name player) = Ok short
          /\ Team.player_last_name_dict (Team.append self player).1
             !! String initial short = Some player
  end.
Proof.
  destruct (short_last_name_total (last_name player)) as [short Hshort].
  unfold Team.append. rewrite Hshort.
  destruct (first_name player) as [|initial rest];
    cbn [first fst snd Team.player_id_dict Team.player_name_dict
         Team.player_last_name_dict];
    rewrite !lookup_insert_eq.
  - repeat split.
  - repeat split. exists short. split; [reflexivity |].
    apply lookup_insert_eq.
Qed.

(** X10.  Registering a player leaves every other id, and every other
    registered full name, resolving as before. *)
Theorem append_keeps_earlier_players (self : Team.t) (player : Player) :
  (forall i, i <> mlb_id player ->
     Team.find_player (Team.append self player).1 (KeyInt i)
     = Team.find_player self (KeyInt i))
  /\ (forall name earlier,
        name <> full_name player ->
        Team.player_name_dict self !! name = Some earlier ->
        Team.find_player (Team.append self player).1 (KeyStr name)
        = Ok (Some earlier)).
Proof.
  destruct (short_last_name_total (last_name player)) as [short Hshort].
  unfold Team.append. rewrite Hshort. split.
  - intros i Hne.
    destruct (first (first_name player));
      cbn [fst Team.find_player Team.player_id_dict];
      rewrite lookup_insert_ne by congruence; reflexivity.
  - intros name earlier Hne Hname.
    destruct (first (first_name player));
      cbn [fst Team.find_player Team.player_name_dict];
      rewrite lookup_insert_ne, Hname by congruence; reflexivity.
Qed.

Lemma append_keeps_earlier_players_witness :
  Team.find_player angels (KeyInt 545361%Z) = Ok (Some mike_trout)
  /\ Team.find_player angels (KeyStr "Mike Trout") = Ok (Some mike_trout).
Proof.
  destruct (append_keeps_earlier_players
              (Team.append empty_roster mike_trout).1 joe_smith) as [Hid Hname].
  split.
  - unfold angels. rewrite Hid by discriminate. vm_compute. reflexivity.
  - unfold angels. apply Hname; [discriminate | vm_compute; reflexivity].
Defined.

(** ** Text without white space *)

Lemma unmatched_no_space r s :
  needs_space r -> none_of is_space s = true -> unmatched r s.
Proof.
  intros Hr Hs p. apply Hr. intros t Ht.
  pose proof (none_of_drop is_space p s Hs) as Hd.
  rewrite Ht in Hd. discriminate Hd.
Qed.

Lemma lstrip_by_none_of p s : none_of p s = true -> lstrip_by p s = s.
Proof.
  destruct s as [|c s]; [reflexivity |]. cbn [none_of lstrip_by].
  intros [Hc _]%andb_prop. destruct (p c); [discriminate Hc | reflexivity].
Qed.

Lemma strip_by_none_of p s : none_of p s = true -> strip_by p s = s.
Proof.
  intros H. unfold strip_by.
  rewrite (lstrip_by_none_of p s H). apply rstrip_by_none_of, H.
Qed.

(** X11.  Text without white space comes out of [strip_suffixes] as it
    went in: every suffix pattern starts with a space. *)
Theorem strip_suffixes_keeps_spaceless (s : string)
    (Hs : none_of is_space s = true) :
  strip_suffixes s = s.
Proof.
  assert (Hstrip : strip s = s) by (apply strip_by_none_of, Hs).
  assert (Hun : forall r, needs_space r -> unmatched r s)
    by (intros r Hr; apply unmatched_no_space; assumption).
  unfold strip_suffixes.
  rewrite (strip_this_suffix_unmatched re_Jr_dot_cap re_Jr_dot);
    [| apply Hun, needs_space_seq | apply Hun, needs_space_lit | exact Hstrip].
  rewrite (strip_this_suffix_unmatched re_Sr_dot_cap re_Sr_dot);
    [| apply Hun, needs_space_seq | apply Hun, needs_space_lit | exact Hstrip].
  rewrite (unmatched_sub re_II) by apply Hun, needs_space_lit.
  rewrite (unmatched_sub re_III) by apply Hun, needs_space_lit.
  rewrite (unmatched_sub re_IV) by apply Hun, needs_space_lit.
  apply unmatched_sub, Hun, needs_space_lit.
Qed.

Lemma strip_suffixes_keeps_spaceless_witness :
  none_of is_space "O'Neill-Jr.III" = true
  /\ strip_suffixes "O'Neill-Jr.III" = "O'Neill-Jr.III".
Proof.
  split; [reflexivity |].
  apply strip_suffixes_keeps_spaceless. reflexivity.
Defined.

Lemma replace_go_none old new s :
  contains old s = false -> replace_go old new s 0 = s.
Proof.
  induction s as [|c s IH]; cbn [contains replace_go]; [reflexivity |].
  intros [Hsw Hc]%orb_false_elim. rewrite Hsw, (IH Hc). reflexivity.
Qed.

Lemma none_of_no_char p c s :
  p c = true -> none_of p s = true -> contains (String c "") s = false.
Proof.
  intros Hp. induction s as [|d s IH]; cbn [none_of contains].
  - intros _. reflexivity.
  - intros [Hd Hs]%andb_prop. rewrite starts_with_char, (IH Hs), orb_false_r.
    destruct (Ascii.eqb_spec c d) as [<-|]; [| reflexivity].
    rewrite Hp in Hd. discriminate Hd.
Qed.

(** X12.  A last name without white space, period or comma is its own
    short last name. *)
Theorem short_last_name_of_plain_name (last_name : string)
    (Hplain : none_of blank_dot_comma last_name = true) :
  Team.short_last_name last_name = Ok last_name.
Proof.
  assert (Hsp : none_of is_space last_name = true).
  { apply (none_of_impl blank_dot_comma); [| exact Hplain].
    intros c Hc. unfold blank_dot_comma. rewrite Hc. reflexivity. }
  assert (Hchars : strip_chars ". " last_name = last_name).
  { apply strip_by_none_of, (none_of_impl blank_dot_comma); [| exact Hplain].
    intros c Hc. unfold mem in Hc. cbn [contains] in Hc.
    rewrite !starts_with_char in Hc. unfold blank_dot_comma.
    destruct (Ascii.eqb c ".") eqn:E1;
      [rewrite orb_true_r; reflexivity |].
    destruct (Ascii.eqb c " ") eqn:E2; [| discriminate Hc].
    apply Ascii.eqb_eq in E2. subst c. reflexivity. }
  assert (Hcomma : replace "," "" last_name = last_name).
  { apply replace_go_none, (none_of_no_char blank_dot_comma);
      [reflexivity | exact Hplain]. }
  assert (Hstrip : strip last_name = last_name) by (apply strip_by_none_of, Hsp).
  assert (Hun : forall r repl, needs_space r -> sub r repl last_name = last_name).
  { intros r repl Hr. apply unmatched_sub, unmatched_no_space; assumption. }
  unfold Team.short_last_name.
  rewrite Hchars, Hcomma, (Hun re_Jr_end) by apply needs_space_seq.
  rewrite Hchars, Hcomma, (Hun re_Sr_end) by apply needs_space_seq.
  rewrite Hstrip, (Hun re_II_end) by apply needs_space_seq.
  rewrite Hstrip, (Hun re_III_end) by apply needs_space_seq.
  rewrite Hstrip, (Hun re_IV_end) by apply needs_space_seq.
  rewrite Hstrip, (Hun re_St_dot) by apply needs_space_lit.
  rewrite (none_of_no_space _ Hsp). reflexivity.
Qed.

Lemma short_last_name_of_plain_name_witness :
  none_of blank_dot_comma "Trout" = true
  /\ Team.short_last_name "Trout" = Ok "Trout".
Proof.
  split; [reflexivity |].
  apply short_last_name_of_plain_name. reflexivity.
Defined.

(** ** Position tokens *)

Lemma split_hyphen_head s :
  none_of is_space s = true ->
  exists h r, split "-" s = h :: r /\ none_of blank_or_hyphen h = true.
Proof.
  unfold split. induction s as [|c s IH]; cbn [split_go none_of].
  - intros _. exists "", []. split; reflexivity.
  - intros [Hc Hs]%andb_prop. rewrite starts_with_char.
    destruct (Ascii.eqb "-" c) eqn:E.
    + eexists "", _. split; reflexivity.
    + destruct (IH Hs) as (h & r & -> & Hh). exists (String c h), r.
      split; [reflexivity |]. cbn [none_of]. rewrite Hh.
      unfold blank_or_hyphen. rewrite Ascii.eqb_sym, E.
      destruct (is_space c); [discriminate Hc | reflexivity].
Qed.

Lemma list_index_err {A : Type} (l : list A) i e :
  list_index l i = Err e -> e = IndexError.
Proof.
  unfold list_index. destruct (nth_error l i); [discriminate |].
  intros [= <-]. reflexivity.
Qed.

(** X13.  The token [get_defense_player_order] makes of a position holds
    no white space and no hyphen; when the position, its qualifiers taken
    off, holds no word at all, the exception is [IndexError]. *)
Theorem defense_player_token (this_position : string) :
  match defense_player this_position with
  | Ok token => none_of blank_or_hyphen token = true
  | Err e => e = IndexError
  end.
Proof.
  unfold defense_player.
  set (p := if contains "shallow" _ then _ else _).
  destruct (list_index (words p) 0) as [w|e] eqn:Hw; cbn [mbind result_bind].
  - assert (Hclean : none_of is_space w = true).
    { unfold list_index in Hw.
      destruct (nth_error (words p) 0) as [w'|] eqn:E; [| discriminate Hw].
      injection Hw as ->. pose proof (words_clean p) as Hall.
      rewrite Forall_forall in Hall.
      apply nth_error_In, list_elem_of_In in E. exact (proj1 (Hall w E)). }
    destruct (split_hyphen_head w Hclean) as (h & r & -> & Hh). exact Hh.
  - exact (list_index_err _ _ _ Hw).
Qed.

(** ** The normalizer never lengthens *)

Lemma len_sub_lit w repl s :
  len repl <= len w -> len (sub (Lit w) repl s) <= len s.
Proof.
  intros Hw. unfold sub.
  pose proof (len_sub_go (Lit w) repl s 0) as H.
  rewrite Nat.sub_0_r in H. apply H.
  intros t n g Hm. apply match_here_lit in Hm as [-> _]. exact Hw.
Qed.

Lemma len_sub_empty r s : len (sub r "" s) <= len s.
Proof.
  unfold sub. pose proof (len_sub_go r "" s 0) as H.
  rewrite Nat.sub_0_r in H. apply H. intros. simpl. lia.
Qed.

Lemma len_strip_this_suffix_loop w r fuel : forall s,
  2 <= len w ->
  len (strip_this_suffix_loop fuel (Seq (Lit w) r) (Lit w) s) <= len s.
Proof.
  induction fuel as [|fuel IH]; intros s Hw; cbn [strip_this_suffix_loop];
    [lia |].
  destruct (search (Seq (Lit w) r) s) as [[i j]|] eqn:E; [| lia].
  pose proof (strip_this_suffix_round_shrinks w r s i j Hw E).
  etransitivity; [apply IH, Hw | lia].
Qed.

Lemma len_strip_this_suffix w r s :
  2 <= len w ->
  len (strip_this_suffix (Seq (Lit w) r) (Lit w) s) <= len s.
Proof.
  intros Hw. unfold strip_this_suffix.
  etransitivity; [apply len_strip_by |].
  etransitivity; [apply len_sub_empty |].
  apply len_strip_this_suffix_loop, Hw.
Qed.

Lemma len_fix_initials_loop1 fuel : forall s,
  len (fix_initials_loop1 fuel s) <= len s.
Proof.
  induction fuel as [|fuel IH]; intros s; cbn [fix_initials_loop1]; [lia |].
  destruct (search re_two_initials s) as [[i j]|] eqn:E; [| lia].
  pose proof (fix_initials_round1_shrinks s i j E).
  etransitivity; [apply IH | lia].
Qed.

Lemma len_fix_initials_loop2 fuel : forall s,
  len (fix_initials_loop2 fuel s) <= len s.
Proof.
  induction fuel as [|fuel IH]; intros s; cbn [fix_initials_loop2]; [lia |].
  destruct (search re_initial_cap s) as [[i j]|] eqn:E; [| lia].
  pose proof (fix_initials_round2_shrinks s i j E).
  etransitivity; [apply IH | lia].
Qed.

Lemma len_fix_initials s : len (fix_initials s) <= len s.
Proof.
  unfold fix_initials.
  etransitivity; [apply len_fix_initials_loop2 |].
  apply len_fix_initials_loop1.
Qed.

(** X14.  Neither step of the name normalizer ever makes a text longer. *)
Theorem normalizer_never_lengthens (s : string) :
  len (strip_suffixes s) <= len s
  /\ len (fix_initials s) <= len s
  /\ len (normalize s) <= len s.
Proof.
  assert (Hstrip : forall t, len (strip_suffixes t) <= len t).
  { intros t. unfold strip_suffixes.
    etransitivity; [apply (len_sub_lit " St. " " St "); simpl; lia |].
    etransitivity; [apply len_sub_empty |].
    etransitivity; [apply len_sub_empty |].
    etransitivity; [apply len_sub_empty |].
    etransitivity;
      [apply (len_strip_this_suffix " Sr." (Seq (Plus space) upper));
       simpl; lia |].
    apply (len_strip_this_suffix " Jr." (Seq (Plus space) upper)).
    simpl. lia. }
  split; [apply Hstrip | split; [apply len_fix_initials |]].
  unfold normalize. etransitivity; [apply len_fix_initials | apply Hstrip].
Qed.

(** ** Splitting *)

Lemma split_none sep s : contains sep s = false -> split sep s = [s].
Proof.
  unfold split. induction s as [|c s IH]; cbn [contains split_go];
    [reflexivity |].
  intros [Hsw Hc]%orb_false_elim. rewrite Hsw, (IH Hc). reflexivity.
Qed.

Lemma starts_with_dot_space c s :
  starts_with ". " (String c s)
  = Ascii.eqb "." c && match s with
                       | String d _ => Ascii.eqb " " d
                       | EmptyString => false
                       end.
Proof.
  unfold starts_with. cbn [strip_prefix].
  destruct (Ascii.eqb "." c); [| reflexivity].
  destruct s as [|d s]; [reflexivity |].
  destruct (Ascii.eqb " " d); reflexivity.
Qed.

Lemma split_go_first_sentence a t :
  starts_with ". " t = true ->
  contains ". " a = false ->
  exists r, split_go ". " (a ^^ t) 0 = a :: r.
Proof.
  intros Ht. induction a as [|c a IH]; intros Ha.
  - destruct t as [|d t]; [discriminate Ht |].
    cbn [cat split_go]. rewrite Ht. eauto.
  - cbn [contains] in Ha. apply orb_false_elim in Ha as [Hsw Ha].
    change (String c a ^^ t) with (String c (a ^^ t)).
    cbn [split_go].
    assert (Hsw' : starts_with ". " (String c (a ^^ t)) = false).
    { rewrite starts_with_dot_space in Hsw |- *.
      destruct (Ascii.eqb "." c); [| reflexivity].
      destruct a as [|d a]; [| exact Hsw].
      destruct t as [|d t]; [reflexivity |].
      rewrite starts_with_dot_space in Ht.
      apply andb_prop in Ht as [Hd _]. apply Ascii.eqb_eq in Hd as <-.
      reflexivity. }
    rewrite Hsw'. destruct (IH Ha) as [r ->]. eauto.
Qed.

Lemma split_first_sentence a b :
  contains ". " a = false ->
  exists r, split ". " (a ^^ ". " ^^ b) = a :: r.
Proof.
  intros Ha. apply split_go_first_sentence; [| exact Ha].
  apply starts_with_cat.
Qed.

(** X15.  The clause [get_play_str] classifies is the text in front of the
    first period-and-space of the description (suffixes stripped); what
    follows it has no part in the play code. *)
Theorem primary_clause_is_first_sentence (self : args) (a b : string)
    (Hcut : strip_suffixes (plate_appearance_description self) = a ^^ ". " ^^ b)
    (Hfirst : contains ". " a = false) :
  primary_clause self = a.
Proof.
  unfold primary_clause. rewrite Hcut.
  assert (Hc : contains ". " (a ^^ ". " ^^ b) = true).
  { apply contains_cat_r, starts_with_contains, starts_with_cat. }
  rewrite Hc. destruct (split_first_sentence a b Hfirst) as [r ->].
  reflexivity.
Qed.

Lemma primary_clause_is_first_sentence_witness :
  contains ". " "Al Roe flies out to center fielder Bob Hill" = false
  /\ primary_clause
       (appearance empty_roster
          "Al Roe flies out to center fielder Bob Hill. Joe Smith scores."
          "Flyout")
     = "Al Roe flies out to center fielder Bob Hill".
Proof.
  split; [vm_compute; reflexivity |].
  apply (primary_clause_is_first_sentence
           (appearance empty_roster
              "Al Roe flies out to center fielder Bob Hill. Joe Smith scores."
              "Flyout")
           _ "Joe Smith scores."); vm_compute; reflexivity.
Defined.

(** ** Index errors of the splits *)

(** X16.  A description with "error" in it and no " error by " makes
    [get_error_str] raise [IndexError], and the construction fails. *)
Theorem error_without_by_raises (self : args)
    (Herror : contains "error" (plate_appearance_description self) = true)
    (Hby : contains " error by " (plate_appearance_description self) = false) :
  get_error_str self = Err IndexError
  /\ exists e, PlateAppearance.init self = Err e.
Proof.
  assert (H : get_error_str self = Err IndexError).
  { unfold get_error_str. rewrite Herror, (split_none _ _ Hby). reflexivity. }
  split; [exact H |]. rewrite init_stages, H.
  destruct (get_out_runners_list self); [| eauto].
  destruct (get_hit_location self); eauto.
Qed.

Lemma error_without_by_raises_witness :
  contains "error"
    (plate_appearance_description
       (appearance empty_roster "Mike Trout reaches on a fielding error."
          "Field Error")) = true
  /\ contains " error by "
       (plate_appearance_description
          (appearance empty_roster "Mike Trout reaches on a fielding error."
             "Field Error")) = false
  /\ get_error_str
       (appearance empty_roster "Mike Trout reaches on a fielding error."
          "Field Error") = Err IndexError.
Proof.
  split; [vm_compute; reflexivity | split; [vm_compute; reflexivity |]].
  apply (error_without_by_raises
           (appearance empty_roster "Mike Trout reaches on a fielding error."
              "Field Error")); vm_compute; reflexivity.
Defined.

(** X17.  A description (suffixes stripped) of one sentence that names no
    fielder phrase has an empty chain of throws and no defence suffix,
    and hence no hit location. *)
Theorem plain_description_has_no_throws (self : args)
    (Hplain : mentions fielder_phrases
                (strip_suffixes (plate_appearance_description self)) = false) :
  get_throws_str self = Ok ("", "")
  /\ forall location, get_hit_location self = Ok location -> location = None.
Proof.
  assert (H : get_throws_str self = Ok ("", "")).
  { unfold get_throws_str.
    set (d := strip_suffixes (plate_appearance_description self)) in *.
    unfold mentions, fielder_phrases in Hplain. cbn [existsb] in Hplain.
    apply orb_false_elim in Hplain as [Hdot Hplain].
    apply orb_false_elim in Hplain as [Hdefl Hplain].
    apply orb_false_elim in Hplain as [Hassist Hplain].
    apply orb_false_elim in Hplain as [Hcolon Hplain].
    apply orb_false_elim in Hplain as [Hcatcher Hplain].
    apply orb_false_elim in Hplain as [Hfielded Hplain].
    apply orb_false_elim in Hplain as [Hto Hplain].
    apply orb_false_elim in Hplain as [Herror _].
    assert (Hc : get_defense_code_order d = Ok []).
    { unfold get_defense_code_order, get_defense_predicate_list.
      rewrite Hcatcher, Hfielded, Hto, andb_false_r.
      destruct (_ || _ || _ || _); cbn [mbind result_bind];
        rewrite Herror; reflexivity. }
    rewrite Hdot. cbn [mbind result_bind]. rewrite Hdefl, Hassist, Hcolon.
    cbn [mbind result_bind]. rewrite Hc. reflexivity. }
  split; [exact H |].
  unfold get_hit_location. rewrite H. intros location.
  destruct (get_play_str self); cbn; congruence.
Qed.

Lemma plain_description_has_no_throws_witness :
  get_throws_str
    (appearance empty_roster "Mike Trout strikes out swinging." "Strikeout")
  = Ok ("", "").
Proof.
  apply (plain_description_has_no_throws
           (appearance empty_roster "Mike Trout strikes out swinging."
              "Strikeout")).
  vm_compute. reflexivity.
Defined.

(** ** The description the older constructor stores *)

Lemma star_chars_greedy {A : Type} p (k : string -> captures -> option A) n :
  (forall t g, k t g <> None) ->
  forall s g, len s <= n ->
    star_rounds (rmatch (Chars p)) k n s g = k (lstrip_by p s) g.
Proof.
  intros Hk. induction n as [|n IH]; intros s g Hlen.
  - destruct s; [reflexivity | simpl in Hlen; lia].
  - cbn [star_rounds rmatch]. destruct s as [|c t]; [reflexivity |].
    cbn [lstrip_by]. destruct (p c); [| reflexivity].
    assert (Hlt : (len t <? len (String c t)) = true)
      by (apply Nat.ltb_lt; simpl; lia).
    rewrite Hlt, IH by (simpl in Hlen; lia).
    destruct (k (lstrip_by p t) g) eqn:E; [reflexivity |].
    exfalso. exact (Hk _ _ E).
Qed.

Lemma rmatch_star_chars {A : Type} p s g (k : string -> captures -> option A) :
  (forall t g', k t g' <> None) ->
  rmatch (Star (Chars p)) s g k = k (lstrip_by p s) g.
Proof.
  intros Hk. change (rmatch (Star (Chars p)) s g k)
    with (star_rounds (rmatch (Chars p)) k (len s) s g).
  apply star_chars_greedy; [exact Hk | reflexivity].
Qed.

Lemma match_here_dot_spaces c t :
  match_here re_dot_spaces (String c t)
  = if Ascii.eqb c "." && head_is_space t
    then Some (len (String c t) - len (lstrip_by is_space t), [])
    else None.
Proof.
  unfold match_here, re_dot_spaces, Plus, space. cbn [seq].
  rewrite rmatch_seq, rmatch_lit. cbn [strip_prefix].
  rewrite Ascii.eqb_sym. destruct (Ascii.eqb c "."); [| reflexivity].
  rewrite rmatch_seq.
  destruct t as [|d u]; [reflexivity |]. rewrite rmatch_chars.
  cbn [head_is_space andb lstrip_by].
  destruct (is_space d); [| reflexivity].
  rewrite rmatch_star_chars by discriminate. reflexivity.
Qed.

Lemma lstrip_by_drop p s : lstrip_by p s = drop (len s - len (lstrip_by p s)) s.
Proof.
  induction s as [|c s IH]; [reflexivity |]. cbn [lstrip_by].
  destruct (p c).
  - pose proof (len_lstrip_by p s).
    replace (len (String c s) - len (lstrip_by p s))
      with (S (len s - len (lstrip_by p s))) by (simpl; lia).
    exact IH.
  - rewrite Nat.sub_diag. reflexivity.
Qed.

Lemma sub_go_skip r repl : forall s n,
  sub_go r repl s n = sub_go r repl (drop n s) 0.
Proof.
  induction s as [|c s IH]; intros [|n]; try reflexivity.
  cbn [sub_go drop]. apply IH.
Qed.

Lemma head_is_space_lstrip s : head_is_space (lstrip_by is_space s) = false.
Proof.
  induction s as [|c s IH]; [reflexivity |]. cbn [lstrip_by].
  destruct (is_space c) eqn:E; [exact IH | exact E].
Qed.

(** One step of the substitution of [". "] for a period and the white
    space after it. *)
Lemma sub_dot_spaces_step c t :
  sub re_dot_spaces ". " (String c t)
  = if Ascii.eqb c "." && head_is_space t
    then ". " ^^ sub re_dot_spaces ". " (lstrip_by is_space t)
    else String c (sub re_dot_spaces ". " t).
Proof.
  unfold sub. cbn [sub_go]. rewrite match_here_dot_spaces.
  destruct (Ascii.eqb c "." && head_is_space t) eqn:E; [| reflexivity].
  pose proof (len_lstrip_by is_space t) as Hle.
  replace (len (String c t) - len (lstrip_by is_space t))
    with (S (len t - len (lstrip_by is_space t))) by (simpl; lia).
  rewrite sub_go_skip, <- lstrip_by_drop. reflexivity.
Qed.

Lemma head_is_space_sub s :
  head_is_space s = false ->
  head_is_space (sub re_dot_spaces ". " s) = false.
Proof.
  destruct s as [|c t]; [reflexivity |]. rewrite sub_dot_spaces_step.
  destruct (_ && _); [reflexivity | exact (fun H => H)].
Qed.

Lemma sub_dot_spaces_normalized n : forall s,
  len s <= n -> breaks_normalized (sub re_dot_spaces ". " s) = true.
Proof.
  induction n as [|n IH]; intros s Hlen.
  - destruct s; [reflexivity | simpl in Hlen; lia].
  - destruct s as [|c t]; [reflexivity |]. rewrite sub_dot_spaces_step.
    destruct (Ascii.eqb c "." && head_is_space t) eqn:E.
    + pose proof (len_lstrip_by is_space t).
      change (". " ^^ ?x) with (String "." (String " " x)).
      cbn [breaks_normalized head_is_space drop]. 
      rewrite (head_is_space_sub _ (head_is_space_lstrip t)).
      rewrite IH by (simpl in Hlen; lia). reflexivity.
    + cbn [breaks_normalized]. rewrite IH by (simpl in Hlen; lia).
      rewrite andb_true_r.
      destruct (Ascii.eqb c "."); [| reflexivity].
      cbn [andb] in E |- *. rewrite (head_is_space_sub _ E). reflexivity.
Qed.

Lemma breaks_normalized_tail c t :
  breaks_normalized (String c t) = true -> breaks_normalized t = true.
Proof. cbn [breaks_normalized]. intros [_ H]%andb_prop. exact H. Qed.

Lemma breaks_normalized_lstrip p s :
  breaks_normalized s = true -> breaks_normalized (lstrip_by p s) = true.
Proof.
  induction s as [|c s IH]; [reflexivity |]. intros H. cbn [lstrip_by].
  destruct (p c); [| exact H]. exact (IH (breaks_normalized_tail _ _ H)).
Qed.

Lemma rstrip_by_prefix p s : exists w, s = rstrip_by p s ^^ w.
Proof.
  induction s as [|c s [w IH]]; [exists ""; reflexivity |].
  cbn [rstrip_by]. destruct (rstrip_by p s) as [|d r].
  - destruct (p c); [exists (String c s) | exists s]; reflexivity.
  - exists w. cbn [cat] in *. congruence.
Qed.

Lemma breaks_normalized_prefix a : forall b,
  breaks_normalized (a ^^ b) = true -> breaks_normalized a = true.
Proof.
  induction a as [|c a IH]; intros b H; [reflexivity |].
  cbn [cat breaks_normalized] in H |- *.
  apply andb_prop in H as [Hc H]. rewrite (IH b H), andb_true_r.
  destruct (Ascii.eqb c "."); [| reflexivity]. cbn [andb] in Hc |- *.
  destruct a as [|d a]; [reflexivity |].
  cbn [cat head_is_space drop] in Hc |- *.
  destruct (is_space d); [| reflexivity].
  apply andb_prop in Hc as [Hd Hn].
  unfold starts_with in *. cbn [strip_prefix] in Hd |- *.
  destruct (Ascii.eqb " " d); [| discriminate Hd]. cbn [andb].
  destruct a as [|e a]; [reflexivity | exact Hn].
Qed.

Lemma breaks_normalized_strip s :
  breaks_normalized s = true -> breaks_normalized (strip s) = true.
Proof.
  intros H. unfold strip, strip_by.
  apply (breaks_normalized_lstrip is_space) in H.
  destruct (rstrip_by_prefix is_space (lstrip_by is_space s)) as [w Hw].
  rewrite Hw in H. exact (breaks_normalized_prefix _ _ H).
Qed.

Lemma strip_by_idem p s : strip_by p (strip_by p s) = strip_by p s.
Proof.
  unfold strip_by at 1.
  destruct (strip_by_head p s) as [-> | (c & t & E & Hc)]; [reflexivity |].
  rewrite E. cbn [lstrip_by]. rewrite Hc, <- E.
  unfold strip_by. apply rstrip_by_idem.
Qed.

Lemma match_here_dot_spaces_min t n g :
  match_here re_dot_spaces t = Some (n, g) -> len ". " <= n.
Proof.
  destruct t as [|c t]; [discriminate |]. rewrite match_here_dot_spaces.
  destruct (Ascii.eqb c "." && head_is_space t) eqn:E; [| discriminate].
  intros [= <- _]. apply andb_prop in E as [_ E].
  destruct t as [|d u]; [discriminate E |]. cbn [head_is_space] in E.
  cbn [lstrip_by]. rewrite E. pose proof (len_lstrip_by is_space u).
  simpl. lia.
Qed.

(** X18.  In the description the older constructor stores, a period that
    is followed by white space is followed by one space character and
    then by no more white space; the description has no white space at
    its ends and is no longer than the one given. *)
Theorem init_description_breaks_normalized (plate_appearance_description : string) :
  breaks_normalized (init_description plate_appearance_description) = true
  /\ strip (init_description plate_appearance_description)
     = init_description plate_appearance_description
  /\ len (init_description plate_appearance_description)
     <= len plate_appearance_description.
Proof.
  unfold init_description. split; [| split].
  - apply breaks_normalized_strip.
    exact (sub_dot_spaces_normalized _ _ (le_n _)).
  - apply strip_by_idem.
  - pose proof (len_strip_by is_space
                  (sub re_dot_spaces ". "
                     (fix_initials plate_appearance_description))) as H1.
    pose proof (len_sub_go re_dot_spaces ". "
                  (fix_initials plate_appearance_description) 0
                  match_here_dot_spaces_min) as H2.
    pose proof (len_fix_initials plate_appearance_description) as H3.
    unfold strip, sub in *. lia.
Qed.

(** ** The loops stop *)

Lemma strip_this_suffix_loop_stable pattern suffix n : forall s m,
  n <= m ->
  search pattern (strip_this_suffix_loop n pattern suffix s) = None ->
  strip_this_suffix_loop m pattern suffix s
  = strip_this_suffix_loop n pattern suffix s.
Proof.
  induction n as [|n IH]; intros s m Hle H.
  - cbn [strip_this_suffix_loop] in *.
    destruct m; cbn [strip_this_suffix_loop]; [| rewrite H]; reflexivity.
  - destruct m as [|m]; [lia |]. cbn [strip_this_suffix_loop] in *.
    destruct (search pattern s) as [[i j]|]; [| reflexivity].
    apply IH; [lia | exact H].
Qed.

Lemma fix_initials_loop1_stable n : forall s m,
  n <= m ->
  search re_two_initials (fix_initials_loop1 n s) = None ->
  fix_initials_loop1 m s = fix_initials_loop1 n s.
Proof.
  induction n as [|n IH]; intros s m Hle H.
  - cbn [fix_initials_loop1] in *. apply fix_initials_loop1_done, H.
  - destruct m as [|m]; [lia |]. cbn [fix_initials_loop1] in *.
    destruct (search re_two_initials s) as [[i j]|]; [| reflexivity].
    apply IH; [lia | exact H].
Qed.

Lemma fix_initials_loop2_stable n : forall s m,
  n <= m ->
  search re_initial_cap (fix_initials_loop2 n s) = None ->
  fix_initials_loop2 m s = fix_initials_loop2 n s.
Proof.
  induction n as [|n IH]; intros s m Hle H.
  - cbn [fix_initials_loop2] in *. apply fix_initials_loop2_done, H.
  - destruct m as [|m]; [lia |]. cbn [fix_initials_loop2] in *.
    destruct (search re_initial_cap s) as [[i j]|]; [| reflexivity].
    apply IH; [lia | exact H].
Qed.

(** X19.  The loops of [strip_this_suffix], as [strip_suffixes] calls it,
    and of [fix_initials] stop: as many rounds as the text has
    characters leave no match, and rounds allowed beyond that change
    nothing. *)
Theorem normalizer_loops_stop (s : string) (fuel : nat)
    (Hfuel : len s <= fuel) :
  (search re_Jr_dot_cap
     (strip_this_suffix_loop (len s) re_Jr_dot_cap re_Jr_dot s) = None
   /\ strip_this_suffix_loop fuel re_Jr_dot_cap re_Jr_dot s
      = strip_this_suffix_loop (len s) re_Jr_dot_cap re_Jr_dot s)
  /\ (search re_Sr_dot_cap
        (strip_this_suffix_loop (len s) re_Sr_dot_cap re_Sr_dot s) = None
      /\ strip_this_suffix_loop fuel re_Sr_dot_cap re_Sr_dot s
         = strip_this_suffix_loop (len s) re_Sr_dot_cap re_Sr_dot s)
  /\ (search re_two_initials (fix_initials_loop1 (len s) s) = None
      /\ fix_initials_loop1 fuel s = fix_initials_loop1 (len s) s)
  /\ (search re_initial_cap (fix_initials_loop2 (len s) s) = None
      /\ fix_initials_loop2 fuel s = fix_initials_loop2 (len s) s).
Proof.
  assert (HJ : search re_Jr_dot_cap
                 (strip_this_suffix_loop (len s) re_Jr_dot_cap re_Jr_dot s)
               = None).
  { apply (strip_this_suffix_loop_exit " Jr." (Seq (Plus space) upper));
      [simpl |]; lia. }
  assert (HS : search re_Sr_dot_cap
                 (strip_this_suffix_loop (len s) re_Sr_dot_cap re_Sr_dot s)
               = None).
  { apply (strip_this_suffix_loop_exit " Sr." (Seq (Plus space) upper));
      [simpl |]; lia. }
  pose proof (fix_initials_loop1_exit (len s) s (le_n _)) as H1.
  pose proof (fix_initials_loop2_exit (len s) s (le_n _)) as H2.
  repeat split; try assumption.
  - apply strip_this_suffix_loop_stable; assumption.
  - apply strip_this_suffix_loop_stable; assumption.
  - apply fix_initials_loop1_stable; assumption.
  - apply fix_initials_loop2_stable; assumption.
Qed.

Lemma normalizer_loops_stop_witness :
  fix_initials_loop1 40 "A. J. Burnett walks."
  = fix_initials_loop1 (len "A. J. Burnett walks.") "A. J. Burnett walks.".
Proof.
  apply (normalizer_loops_stop "A. J. Burnett walks." 40).
  vm_compute. lia.
Defined.

(** ** Round trip through the roster index, from the name *)

Lemma none_of_cat p a b : none_of p (a ^^ b) = none_of p a && none_of p b.
Proof.
  induction a as [|c a IH]; cbn [cat none_of]; [reflexivity |].
  rewrite IH, andb_assoc. reflexivity.
Qed.

Lemma name_word_inv w :
  name_word w = true ->
  w <> ""
  /\ none_of blank_dot_comma w = true
  /\ Forall (fun g => w <> g) generational_suffixes.
Proof.
  unfold name_word. intros H.
  apply andb_prop in H as [H Hg]. apply andb_prop in H as [Hne Hchars].
  split; [| split; [exact Hchars |]].
  - intros ->. discriminate Hne.
  - apply Forall_forall. intros g Hin ->.
    apply negb_true_iff in Hg.
    assert (Hex : existsb (String.eqb g) generational_suffixes = true).
    { apply existsb_exists. exists g. split; [| apply String.eqb_refl].
      apply list_elem_of_In, Hin. }
    congruence.
Qed.

Lemma name_word_no_space w : name_word w = true -> none_of is_space w = true.
Proof.
  intros (_ & H & _)%name_word_inv.
  apply (none_of_impl blank_dot_comma); [| exact H].
  intros c Hc. unfold blank_dot_comma. rewrite Hc. reflexivity.
Qed.

Lemma name_word_no_blank_dot w :
  name_word w = true -> none_of blank_or_dot w = true.
Proof.
  intros (_ & H & _)%name_word_inv.
  apply (none_of_impl blank_dot_comma); [| exact H].
  intros c Hc. unfold blank_or_dot in Hc. unfold blank_dot_comma.
  apply orb_prop in Hc as [-> | ->]; [reflexivity |].
  rewrite orb_true_r. reflexivity.
Qed.

Lemma join_cons2 sep w1 w2 r :
  join sep (w1 :: w2 :: r) = w1 ^^ sep ^^ join sep (w2 :: r).
Proof. reflexivity. Qed.

Lemma join_head sep c w r : exists t, join sep (String c w :: r) = String c t.
Proof. destruct r; [| rewrite join_cons2; cbn [cat]]; eauto. Qed.

Lemma none_of_join p ws :
  p " "%char = false ->
  Forall (fun w => none_of p w = true) ws ->
  none_of p (join " " ws) = true.
Proof.
  intros Hsp. induction 1 as [|w ws Hw Hws IH]; [reflexivity |].
  destruct ws as [|w2 r]; [exact Hw |].
  rewrite join_cons2, !none_of_cat, Hw, IH. cbn [none_of].
  rewrite Hsp. reflexivity.
Qed.

Lemma rstrip_by_cat p a b :
  rstrip_by p b = b -> b <> "" -> rstrip_by p (a ^^ b) = a ^^ b.
Proof.
  intros Hb Hne. induction a as [|c a IH]; [exact Hb |].
  cbn [cat]. apply rstrip_by_cons; [exact IH |].
  destruct a; [exact Hne | discriminate].
Qed.

Section NameWords.

Variable p : ascii -> bool.
Hypothesis Hp : forall c, p c = true -> blank_dot_comma c = true.

Lemma name_word_none_of w : name_word w = true -> none_of p w = true.
Proof.
  intros (_ & H & _)%name_word_inv.
  apply (none_of_impl blank_dot_comma); [exact Hp | exact H].
Qed.

Lemma rstrip_by_join ws :
  Forall (fun w => name_word w = true) ws ->
  rstrip_by p (join " " ws) = join " " ws.
Proof.
  induction 1 as [|w ws Hw Hws IH]; [reflexivity |].
  destruct ws as [|w2 r];
    [apply rstrip_by_none_of, name_word_none_of, Hw |].
  rewrite join_cons2. apply rstrip_by_cat.
  - change (" " ^^ join " " (w2 :: r)) with (String " " (join " " (w2 :: r))).
    apply rstrip_by_cons; [exact IH |].
    apply Forall_inv in Hws. apply name_word_inv in Hws as (Hne & _).
    destruct w2 as [|c w2]; [contradiction |].
    destruct (join_head " " c w2 r) as [t ->]. discriminate.
  - discriminate.
Qed.

Lemma strip_by_join ws :
  Forall (fun w => name_word w = true) ws ->
  strip_by p (join " " ws) = join " " ws.
Proof.
  intros Hws. unfold strip_by.
  assert (Hl : lstrip_by p (join " " ws) = join " " ws).
  { destruct Hws as [|w ws Hw Hws]; [reflexivity |].
    pose proof (name_word_none_of w Hw) as Hn.
    apply name_word_inv in Hw as (Hne & _).
    destruct w as [|c w]; [contradiction |].
    destruct (join_head " " c w ws) as [t ->]. cbn [lstrip_by].
    cbn [none_of] in Hn. apply andb_prop in Hn as [Hc _].
    destruct (p c); [discriminate Hc | reflexivity]. }
  rewrite Hl. apply rstrip_by_join, Hws.
Qed.

End NameWords.

Lemma unmatched_app r w t :
  needs_space r -> none_of is_space w = true ->
  unmatched r t -> unmatched r (w ^^ t).
Proof.
  intros Hr. induction w as [|c w IH]; intros Hw Ht; [exact Ht |].
  cbn [none_of] in Hw. apply andb_prop in Hw as [Hc Hw].
  intros [|n]; cbn [cat drop].
  - apply Hr. intros t'. apply not_space_char.
    destruct (is_space c); [discriminate Hc | reflexivity].
  - apply (IH Hw Ht).
Qed.

Lemma unmatched_space r t :
  match_here r (String " " t) = None -> unmatched r t ->
  unmatched r (String " " t).
Proof. intros H0 Ht [|n]; [exact H0 | exact (Ht n)]. Qed.

(** No generational suffix ends a name of such words. *)
Lemma unmatched_join_end g ws :
  none_of (fun c => Ascii.eqb c " ") g = true ->
  Forall (fun w => name_word w = true /\ w <> g) ws ->
  ws <> [] ->
  unmatched (Seq (Lit (String " " g)) Eos) (join " " ws)
  /\ match_here (Seq (Lit (String " " g)) Eos) (String " " (join " " ws))
     = None.
Proof.
  intros Hg Hws. induction Hws as [|w ws [Hw Hwg] Hws IH]; [congruence |].
  intros _. pose proof (name_word_no_space w Hw) as Hsp.
  assert (Hnl : forall s, none_of is_space s = true ->
                          s <> g ^^ String "010" "").
  { intros s Hs ->. rewrite none_of_cat in Hs.
    apply andb_prop in Hs as [_ Hs]. discriminate Hs. }
  destruct ws as [|w2 r].
  - split.
    + apply unmatched_no_space; [apply needs_space_seq | exact Hsp].
    + apply match_here_lit_end_none; [exact Hwg | exact (Hnl w Hsp)].
  - destruct (IH ltac:(discriminate)) as [IHu IHm].
    rewrite join_cons2.
    assert (Hblank : forall s,
              none_of (fun c => Ascii.eqb c " ") s = true ->
              w ^^ " " ^^ join " " (w2 :: r) <> s).
    { intros s Hs E. rewrite <- E, !none_of_cat in Hs.
      apply andb_prop in Hs as [_ Hs]. discriminate Hs. }
    split.
    + apply unmatched_app; [apply needs_space_seq | exact Hsp |].
      apply unmatched_space; assumption.
    + apply match_here_lit_end_none; apply Hblank.
      * exact Hg.
      * rewrite none_of_cat, Hg. reflexivity.
Qed.

Lemma words_go_cat w t :
  none_of is_space w = true ->
  words_go (w ^^ t) = ((w ^^ (words_go t).1), (words_go t).2).
Proof.
  induction w as [|c w IH]; intros Hw; cbn [cat].
  - destruct (words_go t); reflexivity.
  - cbn [none_of] in Hw. apply andb_prop in Hw as [Hc Hw].
    cbn [words_go]. rewrite (IH Hw).
    destruct (is_space c); [discriminate Hc | reflexivity].
Qed.

Lemma words_go_join w ws :
  Forall (fun w => name_word w = true) (w :: ws) ->
  words_go (join " " (w :: ws)) = (w, ws).
Proof.
  revert w. induction ws as [|w2 r IH]; intros w Hws.
  - apply words_go_none_of, name_word_no_space.
    exact (Forall_inv Hws).
  - rewrite join_cons2, words_go_cat
      by (apply name_word_no_space; exact (Forall_inv Hws)).
    change (" " ^^ join " " (w2 :: r)) with (String " " (join " " (w2 :: r))).
    cbn [words_go]. rewrite (IH w2 (Forall_inv_tail Hws)).
    change (is_space " ") with true. cbn [fst snd].
    rewrite cat_empty_r.
    pose proof (Forall_inv (Forall_inv_tail Hws)) as Hw2.
    apply name_word_inv in Hw2 as (Hne & _).
    destruct w2; [contradiction | reflexivity].
Qed.

Lemma words_join ws :
  Forall (fun w => name_word w = true) ws -> words (join " " ws) = ws.
Proof.
  intros Hws. destruct ws as [|w ws]; [reflexivity |].
  unfold words. rewrite (words_go_join w ws Hws).
  apply Forall_inv, name_word_inv in Hws as (Hne & _).
  destruct w; [contradiction | reflexivity].
Qed.

Lemma unmatched_lit_dot w ws :
  contains "." w = true ->
  Forall (fun w => name_word w = true) ws ->
  unmatched (Lit w) (join " " ws).
Proof.
  intros Hdot Hws n.
  destruct (match_here (Lit w) (drop n (join " " ws))) as [[m g]|] eqn:E;
    [| reflexivity].
  apply match_here_lit in E as (_ & t & E).
  assert (Hn : none_of (fun c => Ascii.eqb c ".") (drop n (join " " ws)) = true).
  { apply none_of_drop, none_of_join; [reflexivity |].
    eapply Forall_impl; [exact Hws |]. intros v Hv. cbn beta.
    apply (name_word_none_of (fun c => Ascii.eqb c ".")); [| exact Hv].
    intros c Hc. unfold blank_dot_comma. rewrite Hc.
    rewrite orb_true_r. reflexivity. }
  rewrite E, none_of_cat in Hn. apply andb_prop in Hn as [Hn _].
  rewrite (none_of_no_char (fun c => Ascii.eqb c ".") "." w eq_refl Hn) in Hdot.
  discriminate Hdot.
Qed.

(** What [append] files a suffix-free last name under. *)
Lemma short_last_name_join ws :
  Forall (fun w => name_word w = true) ws -> ws <> [] ->
  Team.short_last_name (join " " ws) = Ok (short_word ws).
Proof.
  intros Hws Hne. unfold Team.short_last_name.
  assert (Hstrip_chars : strip_chars ". " (join " " ws) = join " " ws).
  { apply strip_by_join; [| exact Hws]. intros c Hc.
    unfold mem in Hc. cbn [contains] in Hc. rewrite !starts_with_char in Hc.
    unfold blank_dot_comma.
    destruct (Ascii.eqb c ".") eqn:Edot; [rewrite !orb_true_r; reflexivity |].
    destruct (Ascii.eqb c " ") eqn:Esp; [| discriminate Hc].
    apply Ascii.eqb_eq in Esp. subst c. reflexivity. }
  assert (Hstrip : strip (join " " ws) = join " " ws).
  { apply strip_by_join; [| exact Hws]. intros c Hc.
    unfold blank_dot_comma. rewrite Hc. reflexivity. }
  assert (Hreplace : replace "," "" (join " " ws) = join " " ws).
  { apply replace_go_none.
    apply (none_of_no_char (fun c => Ascii.eqb c ",")); [reflexivity |].
    apply none_of_join; [reflexivity |].
    eapply Forall_impl; [exact Hws |]. intros v Hv. cbn beta.
    apply (name_word_none_of (fun c => Ascii.eqb c ",")); [| exact Hv].
    intros c Hc. unfold blank_dot_comma. rewrite Hc.
    rewrite orb_true_r. reflexivity. }
  assert (Hend : forall g, g ∈ generational_suffixes ->
            sub (Seq (Lit (String " " g)) Eos) "" (join " " ws)
            = join " " ws).
  { intros g Hg. apply unmatched_sub.
    apply (unmatched_join_end g ws); [| | exact Hne].
    - revert Hg. unfold generational_suffixes. rewrite !elem_of_cons.
      intros [-> | [-> | [-> | [-> | [-> | H]]]]]; try reflexivity.
      by apply elem_of_nil in H.
    - eapply Forall_impl; [exact Hws |]. intros v Hv. cbn beta.
      split; [exact Hv |].
      apply name_word_inv in Hv as (_ & _ & Hv).
      rewrite Forall_forall in Hv. exact (Hv g Hg). }
  unfold re_Jr_end, re_Sr_end, re_II_end, re_III_end, re_IV_end.
  rewrite Hstrip_chars, Hreplace.
  rewrite (Hend "Jr") by (unfold generational_suffixes; set_solver).
  rewrite Hstrip_chars, Hreplace.
  rewrite (Hend "Sr") by (unfold generational_suffixes; set_solver).
  rewrite Hstrip.
  rewrite (Hend "II") by (unfold generational_suffixes; set_solver).
  rewrite Hstrip.
  rewrite (Hend "III") by (unfold generational_suffixes; set_solver).
  rewrite Hstrip.
  rewrite (Hend "IV") by (unfold generational_suffixes; set_solver).
  rewrite Hstrip.
  rewrite (unmatched_sub re_St_dot)
    by (apply unmatched_lit_dot; [reflexivity | exact Hws]).
  destruct ws as [|w [|w2 r]]; [congruence | |].
  - cbn [join short_word].
    rewrite (none_of_no_space w (name_word_no_space w (Forall_inv Hws))).
    reflexivity.
  - assert (Hc : contains " " (join " " (w :: w2 :: r)) = true).
    { rewrite join_cons2. apply contains_cat_r, starts_with_contains.
      apply starts_with_cat. }
    rewrite Hc, (words_join _ Hws). reflexivity.
Qed.

Lemma short_word_name_word ws :
  Forall (fun w => name_word w = true) ws -> ws <> [] ->
  name_word (short_word ws) = true.
Proof.
  intros Hws Hne. destruct ws as [|w [|w2 r]]; [congruence | |].
  - exact (Forall_inv Hws).
  - exact (Forall_inv (Forall_inv_tail Hws)).
Qed.

Lemma name_word_suffix_free w :
  name_word w = true -> numeral_start w = false -> suffix_free w = true.
Proof.
  intros Hw Hnum. unfold suffix_free.
  rewrite (name_word_no_blank_dot w Hw).
  apply orb_false_elim in Hnum as [-> ->].
  apply name_word_inv in Hw as (Hne & _ & Hg).
  rewrite Forall_forall in Hg.
  assert (HJr : String.eqb w "Jr" = false).
  { apply String.eqb_neq, Hg. unfold generational_suffixes. set_solver. }
  assert (HSr : String.eqb w "Sr" = false).
  { apply String.eqb_neq, Hg. unfold generational_suffixes. set_solver. }
  assert (He : String.eqb w "" = false) by (apply String.eqb_neq, Hne).
  rewrite HJr, HSr, He. reflexivity.
Qed.


